(** * Model selection for per-word hidden Markov models (my_model_selectors.py)

    A shallow embedding of the four selection strategies of
    [my_model_selectors.py] (SelectorConstant, SelectorBIC, SelectorDIC,
    SelectorCV) and of the [ModelSelector] base class.

    - Python floats are IEEE-754 binary64 values: [spec_float] with
      precision 53 and maximal exponent 1024, with the arithmetic and the
      comparisons of the Standard Library's [SpecFloat].
    - Python exceptions are an explicit outcome ([Ok] / [Raise]); every call
      into an external library (hmmlearn's [fit] and [score], scikit-learn's
      [KFold.split]) is recorded in a call trace, so that "this call is never
      made" is a statement about the trace.
    - What lives outside the repository (the HMM trainer and scorer,
      [np.log], [np.mean], [statistics.mean], the default fold count of
      [KFold]) is a field of the record [Library]. *)

From Stdlib Require Import ZArith String List Bool Lia Arith.
From Stdlib Require Import Floats.SpecFloat.
Import ListNotations.
Open Scope Z_scope.

(* ================================================================== *)
(** * Part I: definitions *)
(* ================================================================== *)

(** ** Python floats: binary64 *)

Definition prec : Z := 53.
Definition emax : Z := 1024.

Definition float : Type := spec_float.

Definition fadd : float -> float -> float := SFadd prec emax.
Definition fsub : float -> float -> float := SFsub prec emax.
Definition fmul : float -> float -> float := SFmul prec emax.
Definition fdiv : float -> float -> float := SFdiv prec emax.

(** [a < b], [a <= b], [a > b] and [a == b] on floats; all are [false] as
    soon as one side is NaN. *)
Definition flt (a b : float) : bool := SFltb a b.
Definition fle (a b : float) : bool := SFleb a b.
Definition fgt (a b : float) : bool := SFltb b a.
Definition feq (a b : float) : bool := SFeqb a b.

(** Conversion of a Python int to a float (round to nearest, ties to even;
    exact below 2^53). *)
Definition float_of_Z (z : Z) : float := binary_normalize prec emax z 0 false.

Definition pos_inf : float := S754_infinity false.   (* float('inf')  *)
Definition neg_inf : float := S754_infinity true.    (* float('-inf') *)
Definition nan : float := S754_nan.

(** A well-formed binary64 value that is not an infinity and not NaN. *)
Definition is_finite (x : float) : bool :=
  match x with
  | S754_zero _ => true
  | S754_finite _ m e => bounded prec emax m e
  | _ => false
  end.

(** ** Exceptions, outcomes and the call trace *)

Inductive exn : Type :=
| KeyError
| ValueError
| AssertionError
| StatisticsError
| IndexError
| NameError
| TrainingFailure      (* anything raised inside GaussianHMM.fit   *)
| ScoringFailure.      (* anything raised inside GaussianHMM.score *)

Inductive outcome (A : Type) : Type :=
| Ok (a : A)
| Raise (e : exn).
Arguments Ok {A} a.
Arguments Raise {A} e.

(** ** Data model *)

Definition row : Type := list float.          (* one feature vector        *)
Definition matrix : Type := list row.         (* rows stacked              *)
Definition sequence : Type := list row.       (* one observation sequence  *)
Definition Xlengths : Type := (matrix * list nat)%type.

(** [X.shape] of a two-dimensional array: (row count, column count). *)
Definition shape (X : matrix) : Z * Z :=
  (Z.of_nat (length X), Z.of_nat (length (hd [] X))).

(** A Python dict keyed by words, in insertion order. *)
Definition dict (V : Type) : Type := list (string * V).

Fixpoint dict_get {V : Type} (d : dict V) (k : string) : option V :=
  match d with
  | [] => None
  | (k', v) :: d' => if String.eqb k' k then Some v else dict_get d' k
  end.

Definition dict_keys {V : Type} (d : dict V) : list string := map fst d.

(** A fitted [GaussianHMM].  Training is deterministic once the state
    count, the seed and the training data are fixed ([random_state] is an
    int, and [fit] re-initialises every parameter), so a fitted model is
    identified by these four values; [fit] on an existing object replaces
    the last two in place. *)
Record GaussianHMM : Type := mkHMM {
  n_components : Z;
  hmm_random_state : Z;
  fit_X : matrix;
  fit_lengths : list nat
}.

(** Calls into the external libraries, in the order they are made. *)
Inductive event : Type :=
| EvFit (n rs : Z) (X : matrix) (l : list nat)
| EvScore (m : GaussianHMM) (X : matrix) (l : list nat)
| EvSplit (n_splits n_samples : nat).

(** A computation: the trace of external calls it made and its outcome. *)
Definition M (A : Type) : Type := (list event * outcome A)%type.

Definition ret {A : Type} (a : A) : M A := ([], Ok a).
Definition raise {A : Type} (e : exn) : M A := ([], Raise e).
Definition emit (ev : event) : M unit := ([ev], Ok tt).

Definition bind {A B : Type} (m : M A) (f : A -> M B) : M B :=
  match m with
  | (t, Ok a) => let '(t', r) := f a in (t ++ t', r)
  | (t, Raise e) => (t, Raise e)
  end.

(** [try: m  except: h] with a bare [except]. *)
Definition try_except {A : Type} (m : M A) (h : exn -> M A) : M A :=
  match m with
  | (t, Ok a) => (t, Ok a)
  | (t, Raise e) => let '(t', r) := h e in (t ++ t', r)
  end.

Definition trace {A : Type} (m : M A) : list event := fst m.
Definition result {A : Type} (m : M A) : outcome A := snd m.

Notation "x <- m ;; k" := (bind m (fun x => k))
  (at level 61, m at next level, right associativity).
Notation "' pat <- m ;; k" := (bind m (fun x => match x with pat => k end))
  (at level 61, pat pattern, m at next level, right associativity).
Notation "m ;;; k" := (bind m (fun _ => k))
  (at level 61, right associativity).

(** [range(a, b)]. *)
Definition py_range (a b : Z) : list Z :=
  map (fun i => a + Z.of_nat i) (seq 0 (Z.to_nat (b - a))).

(** ** The external collaborators *)

Record Library : Type := mkLibrary {
  (** does [GaussianHMM(n, random_state=rs).fit(X, lengths)] raise? *)
  fit_fails : Z -> Z -> matrix -> list nat -> bool;
  (** [model.score(X, lengths)]; [None] when it raises *)
  hmm_loglik : GaussianHMM -> matrix -> list nat -> option float;
  (** [np.log] at an int *)
  np_log : Z -> float;
  (** [np.mean] of a list of floats (never raises) *)
  np_mean : list float -> float;
  (** [statistics.mean] of a non-empty list of floats *)
  stat_mean : list float -> float;
  (** the default [n_splits] of [KFold()] *)
  kfold_n_splits : nat
}.

(** ** The selector context: ModelSelector.__init__ *)

Record ModelSelector : Type := mkSelector {
  words : dict (list sequence);
  hwords : dict Xlengths;
  sequences : list sequence;
  X : matrix;
  lengths : list nat;
  this_word : string;
  n_constant : Z;
  min_n_components : Z;
  max_n_components : Z;
  random_state : Z;
  verbose : bool
}.

Definition ModelSelector_init
    (all_word_sequences : dict (list sequence))
    (all_word_Xlengths : dict Xlengths)
    (word : string)
    (n_const min_n max_n seed : Z) (verb : bool) : outcome ModelSelector :=
  match dict_get all_word_sequences word with
  | None => Raise KeyError
  | Some seqs =>
    match dict_get all_word_Xlengths word with
    | None => Raise KeyError
    | Some (x, l) =>
      Ok (mkSelector all_word_sequences all_word_Xlengths seqs x l word
                     n_const min_n max_n seed verb)
    end
  end.

(** The constructor with the defaults of the source:
    n_constant=3, min_n_components=2, max_n_components=10, random_state=14,
    verbose=False. *)
Definition ModelSelector_default
    (all_word_sequences : dict (list sequence))
    (all_word_Xlengths : dict Xlengths) (word : string) : outcome ModelSelector :=
  ModelSelector_init all_word_sequences all_word_Xlengths word 3 2 10 14 false.

Section Selectors.

Variable lib : Library.

(** [GaussianHMM(n_components=n, ..., random_state=rs).fit(X, lengths)] *)
Definition hmm_fit (n rs : Z) (x : matrix) (l : list nat) : M GaussianHMM :=
  emit (EvFit n rs x l) ;;;
  if fit_fails lib n rs x l then raise TrainingFailure
  else ret (mkHMM n rs x l).

(** [model.fit(X, lengths)] on an existing object: the same object, refitted. *)
Definition hmm_refit (m : GaussianHMM) (x : matrix) (l : list nat) : M GaussianHMM :=
  hmm_fit (n_components m) (hmm_random_state m) x l.

(** [model.score(X, lengths)] *)
Definition hmm_score (m : GaussianHMM) (x : matrix) (l : list nat) : M float :=
  emit (EvScore m x l) ;;;
  match hmm_loglik lib m x l with
  | Some v => ret v
  | None => raise ScoringFailure
  end.

(** [assert isinstance(model, GaussianHMM)] *)
Definition assert_isinstance (m : option GaussianHMM) : M GaussianHMM :=
  match m with
  | Some hm => ret hm
  | None => raise AssertionError
  end.

(** ModelSelector.base_model: the diagnostic printing under [verbose] has no
    effect on the value and is left out. *)
Definition base_model (self : ModelSelector) (num_states : Z) : M (option GaussianHMM) :=
  try_except
    (hmm_model <- hmm_fit num_states (random_state self) (X self) (lengths self) ;;
     ret (Some hmm_model))
    (fun _ => ret None).

(** ** SelectorConstant *)

Definition SelectorConstant_select (self : ModelSelector) : M (option GaussianHMM) :=
  let best_num_components := n_constant self in
  base_model self best_num_components.

(** ** SelectorBIC *)

(** The free-parameter count and the score of the source's formula. *)
Definition bic_params (n M_cols : Z) : Z := n ^ 2 + 2 * M_cols * n - 1.

Definition bic_score (logL : float) (p N_rows : Z) : float :=
  fadd (fmul (float_of_Z (-2)) logL) (fmul (float_of_Z p) (np_log lib N_rows)).

(** The body of the [try] block for one state count. *)
Definition bic_try (self : ModelSelector) (n_states : Z) : M (float * GaussianHMM) :=
  let '(N, Mc) := shape (X self) in
  model <- base_model self n_states ;;
  model <- assert_isinstance model ;;
  logL <- hmm_score model (X self) (lengths self) ;;
  let p := bic_params n_states Mc in
  let score := bic_score logL p N in
  ret (score, model).

Fixpoint bic_loop (self : ModelSelector) (ns : list Z)
    (best_score : float) (best_model : option GaussianHMM) : M (option GaussianHMM) :=
  match ns with
  | [] => ret best_model
  | n_states :: ns' =>
    r <- try_except (sm <- bic_try self n_states ;; ret (Some sm))
                    (fun _ => ret None) ;;
    match r with
    | None => bic_loop self ns' best_score best_model
    | Some (score, model) =>
      if flt score best_score
      then bic_loop self ns' score (Some model)
      else bic_loop self ns' best_score best_model
    end
  end.

Definition SelectorBIC_select (self : ModelSelector) : M (option GaussianHMM) :=
  bic_loop self (py_range (min_n_components self) (max_n_components self + 1))
           pos_inf None.

(** ** SelectorDIC *)

(** The list comprehension
    over [for word in self.words if word != self.this_word]: the keys of
    [self.words] in order, each looked up in [self.hwords] and the pair found
    there passed to [model.score]. *)
Fixpoint dic_others (self : ModelSelector) (model : GaussianHMM)
    (ws : list string) : M (list float) :=
  match ws with
  | [] => ret []
  | word :: ws' =>
    if String.eqb word (this_word self) then dic_others self model ws'
    else
      xl <- match dict_get (hwords self) word with
            | Some xl => ret xl
            | None => raise KeyError
            end ;;
      s <- hmm_score model (fst xl) (snd xl) ;;
      rest <- dic_others self model ws' ;;
      ret (s :: rest)
  end.

(** The body of the [try] block for one state count. *)
Definition dic_try (self : ModelSelector) (n_states : Z) : M (float * GaussianHMM) :=
  model <- base_model self n_states ;;
  model <- assert_isinstance model ;;
  logL <- hmm_score model (X self) (lengths self) ;;
  others <- dic_others self model (dict_keys (words self)) ;;
  let means := np_mean lib others in
  let score := fsub logL means in
  ret (score, model).

Fixpoint dic_loop (self : ModelSelector) (ns : list Z)
    (best_score : float) (best_model : option GaussianHMM) : M (option GaussianHMM) :=
  match ns with
  | [] => ret best_model
  | n_states :: ns' =>
    r <- try_except (sm <- dic_try self n_states ;; ret (Some sm))
                    (fun _ => ret None) ;;
    match r with
    | None => dic_loop self ns' best_score best_model
    | Some (score, model) =>
      if fgt score best_score
      then dic_loop self ns' score (Some model)
      else dic_loop self ns' best_score best_model
    end
  end.

Definition SelectorDIC_select (self : ModelSelector) : M (option GaussianHMM) :=
  dic_loop self (py_range (min_n_components self) (max_n_components self + 1))
           neg_inf None.

(** ** SelectorCV *)

(** scikit-learn's [KFold] without shuffling: the first [n_samples mod
    n_splits] folds hold [n_samples / n_splits + 1] consecutive indices, the
    others [n_samples / n_splits]; the training indices of a fold are all the
    other indices, in increasing order. *)
Definition fold_sizes (n_splits n_samples : nat) : list nat :=
  map (fun i => (n_samples / n_splits
                 + (if i <? n_samples mod n_splits then 1 else 0))%nat)
      (seq 0 n_splits).

Fixpoint kfold_folds (sizes : list nat) (current n_samples : nat)
    : list (list nat * list nat) :=
  match sizes with
  | [] => []
  | sz :: sizes' =>
    (seq 0 current ++ seq (current + sz) (n_samples - (current + sz)),
     seq current sz)
    :: kfold_folds sizes' (current + sz)%nat n_samples
  end.

(** [KFold()]: the constructor refuses fewer than two splits. *)
Definition KFold_new : M nat :=
  if (kfold_n_splits lib <=? 1)%nat then raise ValueError
  else ret (kfold_n_splits lib).

(** [kf.split(samples)]: refuses more splits than samples. *)
Definition KFold_split (n_splits n_samples : nat) : M (list (list nat * list nat)) :=
  emit (EvSplit n_splits n_samples) ;;;
  if (n_samples <? n_splits)%nat then raise ValueError
  else ret (kfold_folds (fold_sizes n_splits n_samples) 0 n_samples).

(** Modelled from the spec: [asl_utils.combine_sequences] is imported by the
    source but is not among the files at hand.  The selected sequences are
    concatenated row-wise in the given index order, and [lengths] records the
    row count of each selected sequence in the same order. *)
Fixpoint combine_sequences (split_index_list : list nat)
    (seqs : list sequence) : M Xlengths :=
  match split_index_list with
  | [] => ret ([], [])
  | idx :: rest =>
    match nth_error seqs idx with
    | None => raise IndexError
    | Some s =>
      xl <- combine_sequences rest seqs ;;
      ret (s ++ fst xl, length s :: snd xl)
    end
  end.

(** [statistics.mean]: raises on an empty list. *)
Definition statistics_mean (l : list float) : M float :=
  match l with
  | [] => raise StatisticsError
  | _ => ret (stat_mean lib l)
  end.

(** One pass of the inner [for train_index, test_index in kf.split(...)]
    body.  Only the scoring sits inside a [try]. *)
Definition cv_fold (self : ModelSelector) (n_states : Z)
    (state_scores : list float) (fold : list nat * list nat)
    : M (list float * GaussianHMM) :=
  let '(train_index, test_index) := fold in
  model <- base_model self n_states ;;
  model <- assert_isinstance model ;;
  train <- combine_sequences train_index (sequences self) ;;
  test <- combine_sequences test_index (sequences self) ;;
  model <- hmm_refit model (fst train) (snd train) ;;
  r <- try_except (s <- hmm_score model (fst test) (snd test) ;; ret (Some s))
                  (fun _ => ret None) ;;
  match r with
  | Some s => ret (state_scores ++ [s], model)
  | None => ret (state_scores, model)
  end.

(** The inner loop; [model] is the Python local of that name, unbound
    ([None]) until a fold has assigned it. *)
Fixpoint cv_folds (self : ModelSelector) (n_states : Z)
    (folds : list (list nat * list nat))
    (state_scores : list float) (model : option GaussianHMM)
    : M (list float * option GaussianHMM) :=
  match folds with
  | [] => ret (state_scores, model)
  | fold :: folds' =>
    sm <- cv_fold self n_states state_scores fold ;;
    cv_folds self n_states folds' (fst sm) (Some (snd sm))
  end.

(** One pass of the outer loop up to the comparison: the score of the state
    count and the value of the local [model] after the folds. *)
Definition cv_state (self : ModelSelector) (n_states : Z)
    (model : option GaussianHMM) : M (float * option GaussianHMM) :=
  kf <- KFold_new ;;
  folds <- KFold_split kf (length (sequences self)) ;;
  sm <- cv_folds self n_states folds [] model ;;
  score <- try_except (statistics_mean (fst sm)) (fun _ => ret pos_inf) ;;
  ret (score, snd sm).

Fixpoint cv_loop (self : ModelSelector) (ns : list Z)
    (best_score : float) (best_model : option GaussianHMM)
    (model : option GaussianHMM) : M (option GaussianHMM) :=
  match ns with
  | [] => ret best_model
  | n_states :: ns' =>
    sm <- cv_state self n_states model ;;
    if fgt (fst sm) best_score
    then
      m <- match snd sm with
           | Some m => ret m
           | None => raise NameError
           end ;;
      cv_loop self ns' (fst sm) (Some m) (snd sm)
    else cv_loop self ns' best_score best_model (snd sm)
  end.

Definition SelectorCV_select (self : ModelSelector) : M (option GaussianHMM) :=
  let min_num_states := 3 in
  best_model <- base_model self min_num_states ;;
  if (length (sequences self) <? Z.to_nat min_num_states)%nat
  then ret best_model
  else cv_loop self
         (py_range (min_n_components self) (max_n_components self + 1))
         neg_inf best_model None.

(** ** The four strategies behind one entry point *)

Inductive strategy : Type := Constant | BIC | DIC | CV.

Definition select (k : strategy) (self : ModelSelector) : M (option GaussianHMM) :=
  match k with
  | Constant => SelectorConstant_select self
  | BIC => SelectorBIC_select self
  | DIC => SelectorDIC_select self
  | CV => SelectorCV_select self
  end.

End Selectors.

(** ** Pure readings of the loop bodies

    What one pass of each [try] block evaluates to, written without the
    trace; the lemmas of Part II show that the monadic bodies compute
    exactly these. *)

Definition trained_model (self : ModelSelector) (n : Z) : GaussianHMM :=
  mkHMM n (random_state self) (X self) (lengths self).

(** [base_model] succeeded for [n] and the model scores its own data. *)
Definition trained (lib : Library) (self : ModelSelector) (n : Z) (logL : float) : Prop :=
  fit_fails lib n (random_state self) (X self) (lengths self) = false /\
  hmm_loglik lib (trained_model self n) (X self) (lengths self) = Some logL.

Definition in_range (self : ModelSelector) (n : Z) : Prop :=
  min_n_components self <= n <= max_n_components self.

Definition bic_candidate (lib : Library) (self : ModelSelector) (n : Z)
    : option (float * GaussianHMM) :=
  if fit_fails lib n (random_state self) (X self) (lengths self) then None
  else
    match hmm_loglik lib (trained_model self n) (X self) (lengths self) with
    | None => None
    | Some logL =>
      Some (bic_score lib logL (bic_params n (snd (shape (X self))))
                      (fst (shape (X self))),
            trained_model self n)
    end.

(** The running best of a search loop over already evaluated candidates:
    [better new old] is the strict comparison of the loop. *)
Fixpoint pick {T : Type} (better : float -> float -> bool)
    (cands : list (option (float * T)))
    (best_score : float) (best_model : option T) : float * option T :=
  match cands with
  | [] => (best_score, best_model)
  | None :: cands' => pick better cands' best_score best_model
  | Some (score, model) :: cands' =>
    if better score best_score
    then pick better cands' score (Some model)
    else pick better cands' best_score best_model
  end.

(** What a search loop holds after the candidates [ns], each evaluated by
    [f]: nothing yet, because no candidate beat [init]; or the first
    candidate that no other beats.  [weak] is the non-strict comparison that
    goes with [better]. *)
Definition pick_inv {K T : Type} (better weak : float -> float -> bool)
    (f : K -> option (float * T)) (init : float)
    (ns : list K) (st : float * option T) : Prop :=
  match snd st with
  | None =>
    fst st = init /\
    forall k s m, In k ns -> f k = Some (s, m) -> better s init = false
  | Some m' =>
    exists pre n' post,
      ns = pre ++ n' :: post /\
      f n' = Some (fst st, m') /\
      better (fst st) init = true /\
      (forall k s m, In k ns -> f k = Some (s, m) -> better s (fst st) = false) /\
      (forall k s m, In k pre -> f k = Some (s, m) -> weak s (fst st) = false)
  end.

(** The scores of the other words for one model, [None] as soon as a lookup
    in [hwords] or a scoring fails. *)
Fixpoint other_scores (lib : Library) (self : ModelSelector) (model : GaussianHMM)
    (ws : list string) : option (list float) :=
  match ws with
  | [] => Some []
  | word :: ws' =>
    if String.eqb word (this_word self) then other_scores lib self model ws'
    else
      match dict_get (hwords self) word with
      | None => None
      | Some xl =>
        match hmm_loglik lib model (fst xl) (snd xl) with
        | None => None
        | Some s =>
          match other_scores lib self model ws' with
          | None => None
          | Some rest => Some (s :: rest)
          end
        end
      end
  end.

Definition dic_candidate (lib : Library) (self : ModelSelector) (n : Z)
    : option (float * GaussianHMM) :=
  if fit_fails lib n (random_state self) (X self) (lengths self) then None
  else
    match hmm_loglik lib (trained_model self n) (X self) (lengths self) with
    | None => None
    | Some logL =>
      match other_scores lib self (trained_model self n) (dict_keys (words self)) with
      | None => None
      | Some others => Some (fsub logL (np_mean lib others), trained_model self n)
      end
    end.

(** One completed pass of the outer loop of SelectorCV: the score of the
    state count and the model left in the local [model]. *)
Definition cv_candidate (lib : Library) (self : ModelSelector) (n : Z)
    : option (float * GaussianHMM) :=
  match result (cv_state lib self n None) with
  | Ok (s, Some m) => Some (s, m)
  | _ => None
  end.

(** The words of the corpus other than the target, in dictionary order, and
    what it means for a model to score [s] on the pre-combined data of one
    of them. *)
Definition other_words (self : ModelSelector) : list string :=
  filter (fun w => negb (String.eqb w (this_word self))) (dict_keys (words self)).

Definition scored_against (lib : Library) (self : ModelSelector)
    (model : GaussianHMM) (w : string) (s : float) : Prop :=
  exists xl, dict_get (hwords self) w = Some xl /\
             hmm_loglik lib model (fst xl) (snd xl) = Some s.

(** The BIC score in the words of the specification:
    [p = n^2 + 2*n*M - 1] and [score = -2*logL + p*ln(N)], with [N] the row
    count and [M] the column count of the word's matrix. *)
Definition bic_formula (lib : Library) (self : ModelSelector) (n : Z) (logL : float) : float :=
  let N := fst (shape (X self)) in
  let Mc := snd (shape (X self)) in
  let p := n ^ 2 + 2 * n * Mc - 1 in
  fadd (fmul (float_of_Z (-2)) logL) (fmul (float_of_Z p) (np_log lib N)).

(** Every fold split of a trace asks for the default fold count of [KFold]
    on all the sequences of the word. *)
Definition default_split (lib : Library) (self : ModelSelector) (ev : event) : Prop :=
  match ev with
  | EvSplit k n => k = kfold_n_splits lib /\ n = length (sequences self)
  | _ => True
  end.

Definition only_default_splits (lib : Library) (self : ModelSelector)
    (t : list event) : Prop :=
  Forall (default_split lib self) t.

(** ** Round to nearest, ties to even, as arithmetic on integers

    The functions below restate what [binary_round] of [SpecFloat] computes
    on a positive mantissa [m] and an exponent [e]; Part II proves that the
    two agree and that the rounding is monotone. *)

(** Number of binary digits of a positive integer. *)
Definition dig (m : Z) : Z := Z.log2 m + 1.

(** [m / 2^k] rounded to the nearest integer, ties to even ([0 < k]). *)
Definition round_int (m k : Z) : Z :=
  let q := m / 2 ^ k in
  let r := m mod 2 ^ k in
  match 2 * r ?= 2 ^ k with
  | Lt => q
  | Eq => if Z.even q then q else q + 1
  | Gt => q + 1
  end.

(** Mantissa and exponent of the binary64 value nearest to [m * 2^e]. *)
Definition rnd (m e : Z) : Z * Z :=
  let E := fexp prec emax (dig m + e) in
  if E <=? e then (m * 2 ^ (e - E), E)
  else
    let q := round_int m (E - e) in
    if q =? 2 ^ prec then (2 ^ (prec - 1), E + 1) else (q, E).

(** The float with sign [s], mantissa [fst me] and exponent [snd me]; an
    exponent above the largest one is an overflow to infinity. *)
Definition pack (s : bool) (me : Z * Z) : float :=
  match fst me with
  | Z0 => S754_zero s
  | Zpos p => if snd me <=? emax - prec then S754_finite s p (snd me)
              else S754_infinity s
  | Zneg _ => S754_nan
  end.

(** The value of a finite float in units of [2^emin]: an integer, since the
    exponent of a well-formed finite float is at least [emin]. *)
Definition fval (x : float) : Z :=
  match x with
  | S754_finite s m e => cond_Zopp s (Z.pos m * 2 ^ (e - emin prec emax))
  | _ => 0
  end.

(** Equality of floats up to the sign of zero. *)
Definition feqv (x y : float) : Prop :=
  x = y \/ (exists s s', x = S754_zero s /\ y = S754_zero s').

(** Rounding of the integer [z] scaled by [2^e]. *)
Definition BN (z e : Z) : float := binary_normalize prec emax z e false.


(** ** Reference collaborators used to run the selectors on concrete data *)

(** A sequential float sum divided by the count; on the empty list this is
    [0.0 / 0.0], that is NaN, as [np.mean] gives. *)
Definition mean_ref (l : list float) : float :=
  fdiv (fold_left fadd l (S754_zero false)) (float_of_Z (Z.of_nat (length l))).

(** [np.log] at the few row counts the examples use (correctly rounded
    binary64 values of ln 1, ..., ln 5 and ln 50). *)
Definition log_ref (N : Z) : float :=
  if N =? 1 then S754_zero false
  else if N =? 2 then S754_finite false 6243314768165359 (-53)
  else if N =? 3 then S754_finite false 4947709893870347 (-52)
  else if N =? 4 then S754_finite false 6243314768165359 (-52)
  else if N =? 5 then S754_finite false 7248263982714163 (-52)
  else if N =? 50 then S754_finite false 8809092674755503 (-51)
  else nan.

(** A synthetic trainer: [fails n] tells whether training with [n] states
    fails; [loglik] is the scorer. *)
Definition synthetic (fails : Z -> bool)
    (loglik : GaussianHMM -> matrix -> list nat -> option float)
    (n_splits : nat) : Library :=
  mkLibrary (fun n _ _ _ => fails n) loglik log_ref mean_ref mean_ref n_splits.

(** A row of [k] features, all [v]; a matrix of [r] such rows. *)
Definition feat (z : Z) : float := float_of_Z z.
Definition const_matrix (r k : nat) (z : Z) : matrix := repeat (repeat (feat z) k) r.

(** ** A small corpus for the examples

    Two words; the target word "X" has one single-row sequence per entry of
    the given list, the other word "Y" has one sequence. *)

Definition seq1 (z : Z) : sequence := [[feat z]].

Definition corpus_words (seqs : list sequence) : dict (list sequence) :=
  [("X"%string, seqs); ("Y"%string, [seq1 9])].

Definition corpus_hwords (seqs : list sequence) : dict Xlengths :=
  [("X"%string, (concat seqs, map (@length row) seqs));
   ("Y"%string, (seq1 9, [1%nat]))].

Definition corpus_selector (seqs : list sequence) (min_n max_n : Z) : ModelSelector :=
  mkSelector (corpus_words seqs) (corpus_hwords seqs) seqs
             (concat seqs) (map (@length row) seqs) "X"%string 3 min_n max_n 14 false.

Definition two_sequences : list sequence := map seq1 [0; 1].
Definition four_sequences : list sequence := map seq1 [0; 1; 2; 3].
Definition five_sequences : list sequence := map seq1 [0; 1; 2; 3; 4].

(** Training fails for 4 states only; every model scores -10 everywhere. *)
Definition lib_fail4 : Library :=
  synthetic (fun n => n =? 4) (fun _ _ _ => Some (feat (-10))) 5.

(** Training always succeeds; a model with 3 states cannot score anything,
    every other model scores -10 everywhere. *)
Definition lib_noscore3 : Library :=
  synthetic (fun _ => false)
            (fun m _ _ => if n_components m =? 3 then None else Some (feat (-10))) 5.

(** Training and scoring always succeed (score -10). *)
Definition lib_ok : Library :=
  synthetic (fun _ => false) (fun _ _ _ => Some (feat (-10))) 5.

(** A corpus with the target word only, and one where the target word has a
    single one-row sequence (so that [N = 1] and [ln N = 0]). *)
Definition single_word_selector : ModelSelector :=
  mkSelector [("X"%string, five_sequences)]
             [("X"%string, (concat five_sequences, map (@length row) five_sequences))]
             five_sequences (concat five_sequences)
             (map (@length row) five_sequences) "X"%string 3 2 10 14 false.

Definition one_row_selector : ModelSelector := corpus_selector (map seq1 [0]) 2 3.

(** The end-to-end scenario of the specification: 50 rows of 6 features,
    log-likelihoods -100, -80 and -78 for 2, 3 and 4 states. *)
Definition scenario_loglik (n : Z) : float :=
  if n =? 2 then feat (-100) else if n =? 3 then feat (-80) else feat (-78).

Definition lib_scenario : Library :=
  synthetic (fun _ => false) (fun m _ _ => Some (scenario_loglik (n_components m))) 5.

Definition scenario_selector : ModelSelector :=
  mkSelector [("X"%string, [const_matrix 50 6 1])]
             [("X"%string, (const_matrix 50 6 1, [50%nat]))]
             [const_matrix 50 6 1] (const_matrix 50 6 1) [50%nat]
             "X"%string 3 2 4 14 false.

(** ** Reading a call trace *)

(** The training calls of a trace, in order. *)
Definition is_fit (ev : event) : bool :=
  match ev with
  | EvFit _ _ _ _ => true
  | _ => false
  end.

Definition fits (t : list event) : list event := filter is_fit t.

(** The external calls one state count costs SelectorBIC: the training on
    the full data and, when it succeeded, one scoring on the same data. *)
Definition bic_calls (lib : Library) (self : ModelSelector) (n : Z) : list event :=
  EvFit n (random_state self) (X self) (lengths self)
  :: (if fit_fails lib n (random_state self) (X self) (lengths self) then []
      else [EvScore (trained_model self n) (X self) (lengths self)]).

(** The scoring calls of the comprehension over the other words: they stop
    at the first word missing from [hwords] and after the first scoring that
    fails. *)
Fixpoint other_calls (lib : Library) (self : ModelSelector) (model : GaussianHMM)
    (ws : list string) : list event :=
  match ws with
  | [] => []
  | word :: ws' =>
    if String.eqb word (this_word self) then other_calls lib self model ws'
    else
      match dict_get (hwords self) word with
      | None => []
      | Some xl =>
        EvScore model (fst xl) (snd xl)
        :: match hmm_loglik lib model (fst xl) (snd xl) with
           | None => []
           | Some _ => other_calls lib self model ws'
           end
      end
  end.

(** The external calls one state count costs SelectorDIC. *)
Definition dic_calls (lib : Library) (self : ModelSelector) (n : Z) : list event :=
  EvFit n (random_state self) (X self) (lengths self)
  :: (if fit_fails lib n (random_state self) (X self) (lengths self) then []
      else
        EvScore (trained_model self n) (X self) (lengths self)
        :: match hmm_loglik lib (trained_model self n) (X self) (lengths self) with
           | None => []
           | Some _ =>
             other_calls lib self (trained_model self n) (dict_keys (words self))
           end).

(** A call that uses the seed of the selector: a training with that seed,
    or the scoring of a model trained with it. *)
Definition seeded (self : ModelSelector) (ev : event) : Prop :=
  match ev with
  | EvFit _ rs _ _ => rs = random_state self
  | EvScore m _ _ => hmm_random_state m = random_state self
  | EvSplit _ _ => True
  end.

(** A scoring call of SelectorDIC: a model trained on the full data of the
    word, scored on that data or on the pre-combined data of another word. *)
Definition dic_score_call (self : ModelSelector) (ev : event) : Prop :=
  match ev with
  | EvScore m x l =>
    (exists n, in_range self n /\ m = trained_model self n) /\
    ((x, l) = (X self, lengths self) \/
     exists w, In w (other_words self) /\ dict_get (hwords self) w = Some (x, l))
  | EvFit _ _ _ _ => True
  | EvSplit _ _ => False
  end.

(** ** More collaborators and corpora for the examples *)

(** Every model scores -inf everywhere. *)
Definition lib_neg_inf : Library :=
  synthetic (fun _ => false) (fun _ _ _ => Some neg_inf) 5.

(** Models with 2 states score NaN, the others -10. *)
Definition lib_nan2 : Library :=
  synthetic (fun _ => false)
            (fun m _ _ => if n_components m =? 2 then Some nan else Some (feat (-10))) 5.

(** The word "Y" has sequences but no pre-combined data. *)
Definition missing_hwords_selector : ModelSelector :=
  mkSelector (corpus_words five_sequences)
             [("X"%string, (concat five_sequences, map (@length row) five_sequences))]
             five_sequences (concat five_sequences)
             (map (@length row) five_sequences) "X"%string 3 2 4 14 false.

(* ================================================================== *)
(** * Part II: lemmas and theorems *)
(* ================================================================== *)

(** ** The trace monad *)

Lemma result_bind {A B : Type} (m : M A) (f : A -> M B) :
  result (bind m f) =
  match result m with
  | Ok a => result (f a)
  | Raise e => Raise e
  end.
Proof.
  destruct m as [t [a | e]]; simpl; [destruct (f a) |]; reflexivity.
Qed.

Lemma trace_bind {A B : Type} (m : M A) (f : A -> M B) :
  trace (bind m f) =
  trace m ++ match result m with
             | Ok a => trace (f a)
             | Raise _ => []
             end.
Proof.
  destruct m as [t [a | e]]; simpl; [destruct (f a) | rewrite app_nil_r]; reflexivity.
Qed.

Lemma result_try {A : Type} (m : M A) (h : exn -> M A) :
  result (try_except m h) =
  match result m with
  | Ok a => Ok a
  | Raise e => result (h e)
  end.
Proof.
  destruct m as [t [a | e]]; simpl; [| destruct (h e)]; reflexivity.
Qed.

Lemma trace_try {A : Type} (m : M A) (h : exn -> M A) :
  trace (try_except m h) =
  trace m ++ match result m with
             | Ok _ => []
             | Raise e => trace (h e)
             end.
Proof.
  destruct m as [t [a | e]]; simpl; [rewrite app_nil_r | destruct (h e)]; reflexivity.
Qed.

(** ** [range] *)

Lemma in_py_range (a b n : Z) : In n (py_range a b) <-> a <= n < b.
Proof.
  unfold py_range. rewrite in_map_iff. split.
  - intros [i [<- Hi]]. apply in_seq in Hi. lia.
  - intros H. exists (Z.to_nat (n - a)). split; [lia |].
    apply in_seq. lia.
Qed.

Lemma py_range_cons (a b : Z) :
  a < b -> py_range a b = a :: py_range (a + 1) b.
Proof.
  intros H. unfold py_range.
  replace (Z.to_nat (b - a)) with (S (Z.to_nat (b - (a + 1)))) by lia.
  cbn [seq map]. f_equal; [lia |].
  rewrite <- seq_shift, map_map. apply map_ext. intros i. lia.
Qed.

Lemma py_range_nil (a b : Z) : b <= a -> py_range a b = [].
Proof.
  intros H. unfold py_range. replace (Z.to_nat (b - a)) with 0%nat by lia.
  reflexivity.
Qed.

(** ** [base_model] never raises *)

Lemma base_model_eq (lib : Library) (self : ModelSelector) (n : Z) :
  base_model lib self n =
  ([EvFit n (random_state self) (X self) (lengths self)],
   Ok (if fit_fails lib n (random_state self) (X self) (lengths self)
       then None else Some (trained_model self n))).
Proof.
  unfold base_model, hmm_fit, trained_model.
  destruct (fit_fails lib n (random_state self) (X self) (lengths self));
    reflexivity.
Qed.

(** ** The order of binary64 values

    [SFcompare] is a lexicographic comparison on (sign, exponent, mantissa);
    the strict and the weak comparison derived from it are transitive on all
    of [spec_float], NaN included (NaN compares [false] with everything). *)

Ltac float_cases :=
  repeat match goal with
         | |- context [Z.compare ?x ?y] => destruct (Z.compare_spec x y)
         | |- context [Pos.compare_cont Eq ?x ?y] =>
           change (Pos.compare_cont Eq x y) with (Pos.compare x y);
           destruct (Pos.compare_spec x y)
         end;
  simpl; intros; subst;
  try discriminate; try reflexivity; try lia.

Lemma flt_irrefl (a : float) : flt a a = false.
Proof.
  unfold flt, SFltb, SFcompare.
  destruct a as [[] | [] | | [] m e]; simpl; try reflexivity; float_cases.
Qed.

Lemma flt_trans (a b c : float) :
  flt a b = true -> flt b c = true -> flt a c = true.
Proof.
  unfold flt, SFltb, SFcompare.
  destruct a as [[] | [] | | [] ma ea], b as [[] | [] | | [] mb eb],
           c as [[] | [] | | [] mc ec];
    simpl; try discriminate; try reflexivity; float_cases.
Qed.

Lemma fle_flt_trans (a b c : float) :
  fle a b = true -> flt b c = true -> flt a c = true.
Proof.
  unfold fle, flt, SFleb, SFltb, SFcompare.
  destruct a as [[] | [] | | [] ma ea], b as [[] | [] | | [] mb eb],
           c as [[] | [] | | [] mc ec];
    simpl; try discriminate; try reflexivity; float_cases.
Qed.

Lemma flt_fle_trans (a b c : float) :
  flt a b = true -> fle b c = true -> flt a c = true.
Proof.
  unfold fle, flt, SFleb, SFltb, SFcompare.
  destruct a as [[] | [] | | [] ma ea], b as [[] | [] | | [] mb eb],
           c as [[] | [] | | [] mc ec];
    simpl; try discriminate; try reflexivity; float_cases.
Qed.

Lemma fle_not_flt (a b : float) : fle a b = true -> flt b a = false.
Proof.
  unfold fle, flt, SFleb, SFltb, SFcompare.
  destruct a as [[] | [] | | [] ma ea], b as [[] | [] | | [] mb eb];
    simpl; try discriminate; try reflexivity; float_cases.
Qed.

Lemma flt_nan_r (a : float) : flt a nan = false.
Proof. destruct a as [[] | [] | | [] m e]; reflexivity. Qed.

(** ** The running best of a search loop *)

Section PickSpec.

Context {K T : Type}.
Variable better weak : float -> float -> bool.
Hypothesis better_irrefl : forall a, better a a = false.
Hypothesis better_trans :
  forall a b c, better a b = true -> better b c = true -> better a c = true.
Hypothesis weak_better_trans :
  forall a b c, weak a b = true -> better b c = true -> better a c = true.

Variable f : K -> option (float * T).
Variable init : float.

Lemma pick_app (l1 l2 : list (option (float * T))) bs bm :
  pick better (l1 ++ l2) bs bm =
  pick better l2 (fst (pick better l1 bs bm)) (snd (pick better l1 bs bm)).
Proof.
  revert bs bm. induction l1 as [| [[s m] |] l1 IH]; intros bs bm; simpl.
  - reflexivity.
  - destruct (better s bs); apply IH.
  - apply IH.
Qed.

Lemma not_true_false (b : bool) : (b = true -> False) -> b = false.
Proof. destruct b; intuition. Qed.

Lemma pick_spec (ns : list K) :
  pick_inv better weak f init ns (pick better (map f ns) init None).
Proof.
  induction ns as [| n ns IH] using rev_ind.
  - simpl. split; [reflexivity | intros k s m []].
  - rewrite map_app, pick_app. simpl map.
    destruct (pick better (map f ns) init None) as [bs bm].
    unfold pick_inv in IH. cbn [fst snd] in IH |- *.
    unfold pick. destruct (f n) as [[s m] |] eqn:Hn.
    + destruct (better s bs) eqn:Hb.
      * (* the new candidate becomes the best *)
        unfold pick_inv; cbn [fst snd].
        exists ns, n, []. split; [reflexivity |]. split; [exact Hn |].
        destruct bm as [m' |].
        -- destruct IH as (pre & n' & post & -> & Hn' & Hi & Hall & Hpre).
           split; [eapply better_trans; eauto |]. split.
           ++ intros k s0 m0 Hk Hf. apply in_app_or in Hk.
              destruct Hk as [Hk | [<- | []]].
              ** apply not_true_false. intros Hc.
                 assert (Hx : better s0 bs = true)
                   by (eapply better_trans; eauto).
                 rewrite (Hall k s0 m0 Hk Hf) in Hx. discriminate.
              ** rewrite Hn in Hf. injection Hf as <- <-. apply better_irrefl.
           ++ intros k s0 m0 Hk Hf. apply not_true_false. intros Hc.
              assert (Hx : better s0 bs = true)
                by (eapply weak_better_trans; eauto).
              rewrite (Hall k s0 m0 Hk Hf) in Hx. discriminate.
        -- destruct IH as [-> Hall]. split; [exact Hb |]. split.
           ++ intros k s0 m0 Hk Hf. apply in_app_or in Hk.
              destruct Hk as [Hk | [<- | []]].
              ** apply not_true_false. intros Hc.
                 assert (Hx : better s0 init = true)
                   by (eapply better_trans; eauto).
                 rewrite (Hall k s0 m0 Hk Hf) in Hx. discriminate.
              ** rewrite Hn in Hf. injection Hf as <- <-. apply better_irrefl.
           ++ intros k s0 m0 Hk Hf. apply not_true_false. intros Hc.
              assert (Hx : better s0 init = true)
                by (eapply weak_better_trans; eauto).
              rewrite (Hall k s0 m0 Hk Hf) in Hx. discriminate.
      * (* the running best stays *)
        unfold pick_inv; cbn [fst snd]. destruct bm as [m' |].
        -- destruct IH as (pre & n' & post & -> & Hn' & Hi & Hall & Hpre).
           exists pre, n', (post ++ [n]).
           split; [rewrite <- app_assoc; reflexivity |].
           split; [exact Hn' |]. split; [exact Hi |]. split; [| exact Hpre].
           intros k s0 m0 Hk Hf. apply in_app_or in Hk.
           destruct Hk as [Hk | [<- | []]]; [eauto |].
           rewrite Hn in Hf. injection Hf as <- <-. exact Hb.
        -- destruct IH as [-> Hall]. split; [reflexivity |].
           intros k s0 m0 Hk Hf. apply in_app_or in Hk.
           destruct Hk as [Hk | [<- | []]]; [eauto |].
           rewrite Hn in Hf. injection Hf as <- <-. exact Hb.
    + (* the candidate was skipped *)
      unfold pick_inv; cbn [fst snd]. destruct bm as [m' |].
      * destruct IH as (pre & n' & post & -> & Hn' & Hi & Hall & Hpre).
        exists pre, n', (post ++ [n]).
        split; [rewrite <- app_assoc; reflexivity |].
        split; [exact Hn' |]. split; [exact Hi |]. split; [| exact Hpre].
        intros k s0 m0 Hk Hf. apply in_app_or in Hk.
        destruct Hk as [Hk | [<- | []]]; [eauto |].
        rewrite Hn in Hf. discriminate.
      * destruct IH as [-> Hall]. split; [reflexivity |].
        intros k s0 m0 Hk Hf. apply in_app_or in Hk.
        destruct Hk as [Hk | [<- | []]]; [eauto |].
        rewrite Hn in Hf. discriminate.
Qed.

End PickSpec.

(** ** The search loops compute [pick] *)

Section Loops.

Variable lib : Library.
Variable self : ModelSelector.

Lemma hmm_score_result (m : GaussianHMM) (x : matrix) (l : list nat) :
  result (hmm_score lib m x l) =
  match hmm_loglik lib m x l with
  | Some v => Ok v
  | None => Raise ScoringFailure
  end.
Proof. unfold hmm_score. destruct (hmm_loglik lib m x l); reflexivity. Qed.

Lemma bic_try_result (n : Z) :
  result (bic_try lib self n) =
  match bic_candidate lib self n with
  | Some sm => Ok sm
  | None =>
    Raise (if fit_fails lib n (random_state self) (X self) (lengths self)
           then AssertionError else ScoringFailure)
  end.
Proof.
  unfold bic_try, bic_candidate. destruct (shape (X self)) as [N Mc] eqn:Hs.
  rewrite result_bind, base_model_eq. cbn [result snd].
  destruct (fit_fails lib n (random_state self) (X self) (lengths self)).
  - reflexivity.
  - rewrite result_bind. cbn [assert_isinstance ret result snd].
    rewrite result_bind, hmm_score_result.
    destruct (hmm_loglik lib (trained_model self n) (X self) (lengths self));
      reflexivity.
Qed.

Lemma bic_guard_result (n : Z) :
  result (try_except (sm <- bic_try lib self n ;; ret (Some sm))
                     (fun _ => ret None)) = Ok (bic_candidate lib self n).
Proof.
  rewrite result_try, result_bind, bic_try_result.
  destruct (bic_candidate lib self n); reflexivity.
Qed.

Lemma bic_loop_result (ns : list Z) (bs : float) (bm : option GaussianHMM) :
  result (bic_loop lib self ns bs bm) =
  Ok (snd (pick flt (map (bic_candidate lib self) ns) bs bm)).
Proof.
  revert bs bm. induction ns as [| n ns IH]; intros bs bm.
  - reflexivity.
  - cbn [bic_loop map pick]. rewrite result_bind, bic_guard_result.
    destruct (bic_candidate lib self n) as [[s m] |]; [| apply IH].
    destruct (flt s bs); apply IH.
Qed.

Lemma dic_others_result (model : GaussianHMM) (ws : list string) :
  match other_scores lib self model ws with
  | Some l => result (dic_others lib self model ws) = Ok l
  | None => exists e, result (dic_others lib self model ws) = Raise e
  end.
Proof.
  induction ws as [| w ws IH]; cbn [other_scores dic_others].
  - reflexivity.
  - destruct (String.eqb w (this_word self)); [exact IH |].
    rewrite result_bind.
    destruct (dict_get (hwords self) w) as [xl |]; cbn [ret raise result snd];
      [| eexists; reflexivity].
    rewrite result_bind, hmm_score_result.
    destruct (hmm_loglik lib model (fst xl) (snd xl)); [| eexists; reflexivity].
    rewrite result_bind.
    destruct (other_scores lib self model ws) as [rest |].
    + rewrite IH. reflexivity.
    + destruct IH as [e ->]. eexists; reflexivity.
Qed.

Lemma dic_try_result (n : Z) :
  match dic_candidate lib self n with
  | Some sm => result (dic_try lib self n) = Ok sm
  | None => exists e, result (dic_try lib self n) = Raise e
  end.
Proof.
  unfold dic_try, dic_candidate.
  rewrite result_bind, base_model_eq. cbn [result snd].
  destruct (fit_fails lib n (random_state self) (X self) (lengths self)).
  - eexists; reflexivity.
  - rewrite result_bind. cbn [assert_isinstance ret result snd].
    rewrite result_bind, hmm_score_result.
    destruct (hmm_loglik lib (trained_model self n) (X self) (lengths self));
      [| eexists; reflexivity].
    rewrite result_bind.
    pose proof (dic_others_result (trained_model self n) (dict_keys (words self))) as H.
    destruct (other_scores lib self (trained_model self n) (dict_keys (words self))).
    + rewrite H. reflexivity.
    + destruct H as [e ->]. eexists; reflexivity.
Qed.

Lemma dic_guard_result (n : Z) :
  result (try_except (sm <- dic_try lib self n ;; ret (Some sm))
                     (fun _ => ret None)) = Ok (dic_candidate lib self n).
Proof.
  rewrite result_try, result_bind.
  pose proof (dic_try_result n) as H.
  destruct (dic_candidate lib self n).
  - rewrite H. reflexivity.
  - destruct H as [e ->]. reflexivity.
Qed.

Lemma dic_loop_result (ns : list Z) (bs : float) (bm : option GaussianHMM) :
  result (dic_loop lib self ns bs bm) =
  Ok (snd (pick fgt (map (dic_candidate lib self) ns) bs bm)).
Proof.
  revert bs bm. induction ns as [| n ns IH]; intros bs bm.
  - reflexivity.
  - cbn [dic_loop map pick]. rewrite result_bind, dic_guard_result.
    destruct (dic_candidate lib self n) as [[s m] |]; [| apply IH].
    destruct (fgt s bs); apply IH.
Qed.

End Loops.

(** ** Construction *)

(** C9: a target word missing from either corpus dictionary makes the
    constructor raise KeyError, so no selector exists on which [select]
    could be called. *)
Theorem init_missing_word_raises
    (ws : dict (list sequence)) (hws : dict Xlengths) (word : string)
    (n_const min_n max_n seed : Z) (verb : bool) :
  dict_get ws word = None \/ dict_get hws word = None ->
  ModelSelector_init ws hws word n_const min_n max_n seed verb = Raise KeyError.
Proof.
  intros [H | H]; unfold ModelSelector_init; rewrite H.
  - reflexivity.
  - destruct (dict_get ws word); reflexivity.
Qed.

(** ** SelectorCV below the minimum number of sequences *)

(** C7: with fewer than 3 sequences SelectorCV makes exactly one external
    call, the training with 3 states on the word's full matrix and lengths,
    and returns what [base_model] gave; no fold split, no candidate. *)
Theorem cv_fallback_below_three (lib : Library) (self : ModelSelector) :
  (length (sequences self) < 3)%nat ->
  SelectorCV_select lib self =
  ([EvFit 3 (random_state self) (X self) (lengths self)],
   Ok (if fit_fails lib 3 (random_state self) (X self) (lengths self)
       then None
       else Some (mkHMM 3 (random_state self) (X self) (lengths self)))).
Proof.
  intros Hlen. unfold SelectorCV_select. rewrite base_model_eq.
  cbn [bind]. change (Z.to_nat 3) with 3%nat.
  apply Nat.ltb_lt in Hlen. rewrite Hlen. reflexivity.
Qed.

(** ** More on the order of floats *)

Lemma flt_not_nan_l (a b : float) : flt a b = true -> a <> nan.
Proof. intros H ->. discriminate. Qed.

Lemma no_flt_feq (a b : float) :
  a <> nan -> b <> nan -> flt a b = false -> flt b a = false -> feq a b = true.
Proof.
  unfold flt, feq, SFltb, SFeqb, SFcompare, nan.
  destruct a as [[] | [] | | [] ma ea], b as [[] | [] | | [] mb eb];
    simpl; try discriminate; try reflexivity; try congruence; float_cases.
Qed.

Lemma not_fle_flt (a b : float) :
  a <> nan -> b <> nan -> fle a b = false -> flt b a = true.
Proof.
  unfold flt, fle, SFltb, SFleb, SFcompare, nan.
  destruct a as [[] | [] | | [] ma ea], b as [[] | [] | | [] mb eb];
    simpl; try discriminate; try reflexivity; try congruence; float_cases.
Qed.

(** ** Splitting a range at one of its elements *)

Lemma py_range_split (a b : Z) (pre post : list Z) (n : Z) :
  py_range a b = pre ++ n :: post ->
  a <= n < b /\ forall k, In k pre <-> a <= k < n.
Proof.
  revert a. induction pre as [| x pre IH]; intros a H.
  - destruct (Z_lt_le_dec a b) as [Hab | Hab].
    + rewrite py_range_cons in H by exact Hab. injection H as <- _.
      split; [lia |]. intros k. simpl. lia.
    + rewrite py_range_nil in H by exact Hab. discriminate.
  - destruct (Z_lt_le_dec a b) as [Hab | Hab].
    + rewrite py_range_cons in H by exact Hab. simpl in H.
      injection H as <- H. apply IH in H. destruct H as [Hn Hpre].
      split; [lia |]. intros k. simpl. rewrite Hpre. lia.
    + rewrite py_range_nil in H by exact Hab. discriminate.
Qed.

Lemma in_candidates (self : ModelSelector) (n : Z) :
  In n (py_range (min_n_components self) (max_n_components self + 1)) <->
  in_range self n.
Proof. rewrite in_py_range. unfold in_range. lia. Qed.

(** ** Candidates of the BIC and DIC loops *)

Lemma trained_model_inj (self : ModelSelector) (n n' : Z) :
  trained_model self n = trained_model self n' -> n = n'.
Proof. unfold trained_model. congruence. Qed.

Lemma bic_candidate_some (lib : Library) (self : ModelSelector) (n : Z) s m :
  bic_candidate lib self n = Some (s, m) <->
  exists logL, trained lib self n logL /\
    s = bic_score lib logL (bic_params n (snd (shape (X self)))) (fst (shape (X self))) /\
    m = trained_model self n.
Proof.
  unfold bic_candidate, trained.
  destruct (fit_fails lib n (random_state self) (X self) (lengths self)).
  - split; [discriminate | intros (l & [H _] & _); discriminate].
  - destruct (hmm_loglik lib (trained_model self n) (X self) (lengths self)) as [l |].
    + split.
      * intros H. injection H as <- <-. exists l. auto.
      * intros (l' & [_ H] & -> & ->). injection H as <-. reflexivity.
    + split; [discriminate | intros (l & [_ H] & _); discriminate].
Qed.

Lemma bic_try_ok (lib : Library) (self : ModelSelector) (n : Z) sm :
  result (bic_try lib self n) = Ok sm <-> bic_candidate lib self n = Some sm.
Proof.
  rewrite bic_try_result. destruct (bic_candidate lib self n); split; congruence.
Qed.

Lemma dic_try_ok (lib : Library) (self : ModelSelector) (n : Z) sm :
  result (dic_try lib self n) = Ok sm <-> dic_candidate lib self n = Some sm.
Proof.
  pose proof (dic_try_result lib self n) as H.
  destruct (dic_candidate lib self n).
  - rewrite H. split; congruence.
  - destruct H as [e ->]. split; congruence.
Qed.

Lemma other_scores_spec (lib : Library) (self : ModelSelector)
    (model : GaussianHMM) (ws : list string) (l : list float) :
  other_scores lib self model ws = Some l <->
  Forall2 (scored_against lib self model)
          (filter (fun w => negb (String.eqb w (this_word self))) ws) l.
Proof.
  revert l. induction ws as [| w ws IH]; intros l; cbn [other_scores filter].
  - split.
    + intros H. injection H as <-. constructor.
    + intros H. inversion H. reflexivity.
  - destruct (String.eqb w (this_word self)); cbn [negb]; [apply IH |].
    split.
    + destruct (dict_get (hwords self) w) as [xl |] eqn:Hxl; [| discriminate].
      destruct (hmm_loglik lib model (fst xl) (snd xl)) as [s |] eqn:Hs;
        [| discriminate].
      destruct (other_scores lib self model ws) as [rest |]; [| discriminate].
      intros H. injection H as <-. constructor.
      * exists xl. auto.
      * apply IH. reflexivity.
    + intros H. inversion H as [| w' s ws' rest (xl & Hxl & Hs) Hrest]; subst.
      rewrite Hxl, Hs. apply IH in Hrest. rewrite Hrest. reflexivity.
Qed.

Lemma dic_candidate_some (lib : Library) (self : ModelSelector) (n : Z) s m :
  dic_candidate lib self n = Some (s, m) <->
  exists logL others, trained lib self n logL /\
    Forall2 (scored_against lib self (trained_model self n)) (other_words self) others /\
    s = fsub logL (np_mean lib others) /\
    m = trained_model self n.
Proof.
  unfold dic_candidate, trained, other_words.
  destruct (fit_fails lib n (random_state self) (X self) (lengths self)).
  - split; [discriminate | intros (l & o & [H _] & _); discriminate].
  - destruct (hmm_loglik lib (trained_model self n) (X self) (lengths self)) as [l |].
    + destruct (other_scores lib self (trained_model self n) (dict_keys (words self)))
        as [o |] eqn:Ho.
      * split.
        -- intros H. injection H as <- <-. exists l, o.
           apply other_scores_spec in Ho. auto.
        -- intros (l' & o' & [_ H] & Ho' & -> & ->). injection H as <-.
           apply other_scores_spec in Ho'. rewrite Ho in Ho'.
           injection Ho' as <-. reflexivity.
      * split; [discriminate |].
        intros (l' & o' & _ & Ho' & _). apply other_scores_spec in Ho'.
        rewrite Ho in Ho'. discriminate.
    + split; [discriminate | intros (l & o & [_ H] & _); discriminate].
Qed.

Lemma pick_none_stays {T : Type} (better : float -> float -> bool)
    (cands : list (option (float * T))) bs bm :
  (forall s m, In (Some (s, m)) cands -> better s bs = false) ->
  pick better cands bs bm = (bs, bm).
Proof.
  induction cands as [| [[s m] |] cands IH]; intros H; simpl.
  - reflexivity.
  - rewrite (H s m) by (left; reflexivity). apply IH.
    intros s' m' Hin. apply (H s' m'). right. exact Hin.
  - apply IH. intros s' m' Hin. apply (H s' m'). right. exact Hin.
Qed.

(** ** Ties: the first candidate that reaches the best score is kept *)

Section PickTie.

Context {T : Type}.
Variable better weak eqv : float -> float -> bool.
Variable init : float.
Hypothesis better_irrefl : forall a, better a a = false.
Hypothesis better_trans :
  forall a b c, better a b = true -> better b c = true -> better a c = true.
Hypothesis weak_better_trans :
  forall a b c, weak a b = true -> better b c = true -> better a c = true.
Hypothesis no_better_eqv :
  forall a b, better a init = true -> better b init = true ->
              better a b = false -> better b a = false -> eqv a b = true.
Hypothesis not_weak_better :
  forall a b, better a init = true -> better b init = true ->
              weak a b = false -> better b a = true.

Variable f : Z -> option (float * T).

Lemma pick_first_best (a b n1 : Z) (s1 : float) (m1 : T) :
  a <= n1 < b ->
  f n1 = Some (s1, m1) ->
  better s1 init = true ->
  (forall k s m, a <= k < b -> f k = Some (s, m) -> better s s1 = false) ->
  (forall k s m, a <= k < n1 -> f k = Some (s, m) -> eqv s s1 = false) ->
  snd (pick better (map f (py_range a b)) init None) = Some m1.
Proof.
  intros Hn1 Hf1 Hb1 Hbest Hfirst.
  pose proof (pick_spec better weak better_irrefl better_trans
                        weak_better_trans f init (py_range a b)) as Hspec.
  destruct (pick better (map f (py_range a b)) init None) as [bs bm].
  unfold pick_inv in Hspec. cbn [fst snd] in *.
  destruct bm as [m' |].
  - destruct Hspec as (pre & n' & post & Hsplit & Hn' & Hi & Hall & Hpre).
    destruct (py_range_split _ _ _ _ _ Hsplit) as [Hr Hk].
    destruct (Z.lt_trichotomy n' n1) as [Hlt | [-> | Hgt]].
    + (* an earlier candidate would tie with n1 *)
      assert (He : eqv bs s1 = true).
      { apply no_better_eqv; try assumption.
        - apply (Hbest n' bs m'); [lia | exact Hn'].
        - apply (Hall n1 s1 m1); [apply in_py_range; lia | exact Hf1]. }
      rewrite (Hfirst n' bs m') in He; [discriminate | lia | exact Hn'].
    + congruence.
    + (* a later candidate would have had to beat n1 strictly *)
      assert (Hw : weak s1 bs = false).
      { apply (Hpre n1 s1 m1); [apply Hk; lia | exact Hf1]. }
      apply not_weak_better in Hw; try assumption.
      rewrite (Hbest n' bs m') in Hw; [discriminate | lia | exact Hn'].
  - destruct Hspec as [_ Hall].
    rewrite (Hall n1 s1 m1) in Hb1; [discriminate | | exact Hf1].
    apply in_py_range. lia.
Qed.

End PickTie.

Lemma pick_start {T : Type} (better : float -> float -> bool)
    (cands : list (option (float * T))) (bs : float) (bm : option T) :
  snd (pick better cands bs bm) =
  match snd (pick better cands bs None) with
  | Some m => Some m
  | None => bm
  end.
Proof.
  revert bs bm. induction cands as [| [[s m] |] cands IH]; intros bs bm; simpl.
  - reflexivity.
  - destruct (better s bs); [| apply IH].
    rewrite (IH s (Some m)).
    destruct (snd (pick better cands s None)); reflexivity.
  - apply IH.
Qed.

(** ** Rounding: the arithmetic of [round_int] and [rnd] *)

Lemma pow2_pos (k : Z) : 0 <= k -> 0 < 2 ^ k.
Proof. intros. apply Z.pow_pos_nonneg; lia. Qed.

Lemma pow2_split (a b : Z) : 0 <= a -> 0 <= b -> 2 ^ (a + b) = 2 ^ a * 2 ^ b.
Proof. intros. apply Z.pow_add_r; assumption. Qed.

Lemma dig_bounds (m : Z) : 0 < m -> 2 ^ (dig m - 1) <= m < 2 ^ dig m.
Proof.
  intros Hm. unfold dig. replace (Z.log2 m + 1 - 1) with (Z.log2 m) by lia.
  replace (Z.log2 m + 1) with (Z.succ (Z.log2 m)) by lia.
  apply Z.log2_spec. exact Hm.
Qed.

Lemma dig_pos (m : Z) : 0 < m -> 1 <= dig m.
Proof. intros Hm. unfold dig. pose proof (Z.log2_nonneg m). lia. Qed.

Lemma dig_mono (m1 m2 : Z) : m1 <= m2 -> dig m1 <= dig m2.
Proof. intros H. unfold dig. pose proof (Z.log2_le_mono m1 m2 H). lia. Qed.

Lemma dig_shift (m j : Z) : 0 < m -> 0 <= j -> dig (m * 2 ^ j) = dig m + j.
Proof. intros Hm Hj. unfold dig. rewrite Z.log2_mul_pow2 by lia. lia. Qed.

(** [dig m <= d] exactly when [m < 2^d]. *)
Lemma dig_le_iff (m d : Z) : 0 < m -> 0 <= d -> (dig m <= d <-> m < 2 ^ d).
Proof.
  intros Hm Hd. pose proof (dig_bounds m Hm) as [Hlo Hhi]. split; intros H.
  - eapply Z.lt_le_trans; [exact Hhi |]. apply Z.pow_le_mono_r; lia.
  - destruct (Z_le_gt_dec (dig m) d) as [Hle | Hgt]; [exact Hle |].
    assert (2 ^ d <= 2 ^ (dig m - 1)) by (apply Z.pow_le_mono_r; lia). lia.
Qed.

Lemma dig_unique (m d : Z) : 2 ^ (d - 1) <= m < 2 ^ d -> 1 <= d -> dig m = d.
Proof.
  intros [Hlo Hhi] Hd.
  assert (Hm : 0 < m) by (pose proof (pow2_pos (d - 1)); lia).
  pose proof (dig_bounds m Hm) as [Hlo' Hhi'].
  pose proof (dig_pos m Hm).
  destruct (Z.lt_trichotomy (dig m) d) as [Hlt | [Heq | Hgt]]; [| exact Heq |].
  - assert (2 ^ dig m <= 2 ^ (d - 1)) by (apply Z.pow_le_mono_r; lia). lia.
  - assert (2 ^ d <= 2 ^ (dig m - 1)) by (apply Z.pow_le_mono_r; lia). lia.
Qed.

Lemma round_int_bounds (m k : Z) :
  m / 2 ^ k <= round_int m k <= m / 2 ^ k + 1.
Proof.
  unfold round_int. destruct (2 * (m mod 2 ^ k) ?= 2 ^ k);
    [destruct (Z.even (m / 2 ^ k)) | |]; lia.
Qed.

Lemma round_int_mono (m1 m2 k : Z) :
  0 <= k -> m1 <= m2 -> round_int m1 k <= round_int m2 k.
Proof.
  intros Hk Hm. pose proof (pow2_pos k Hk) as Hp.
  pose proof (Z.div_le_mono m1 m2 (2 ^ k) Hp Hm) as Hq.
  pose proof (round_int_bounds m1 k) as B1.
  pose proof (round_int_bounds m2 k) as B2.
  destruct (Z.eq_dec (m1 / 2 ^ k) (m2 / 2 ^ k)) as [Heq | Hne]; [| lia].
  assert (Hr : m1 mod 2 ^ k <= m2 mod 2 ^ k).
  { pose proof (Z.div_mod m1 (2 ^ k)). pose proof (Z.div_mod m2 (2 ^ k)).
    rewrite Heq in *. lia. }
  unfold round_int. rewrite Heq.
  destruct (Z.compare_spec (2 * (m1 mod 2 ^ k)) (2 ^ k));
    destruct (Z.compare_spec (2 * (m2 mod 2 ^ k)) (2 ^ k));
    destruct (Z.even (m2 / 2 ^ k)); lia.
Qed.

Lemma round_int_shift (m k j : Z) :
  0 < k -> 0 <= j -> round_int (m * 2 ^ j) (k + j) = round_int m k.
Proof.
  intros Hk Hj. unfold round_int.
  pose proof (pow2_pos k) as Hpk. pose proof (pow2_pos j Hj) as Hpj.
  rewrite pow2_split by lia.
  rewrite Z.div_mul_cancel_r by lia.
  rewrite Z.mul_mod_distr_r by lia.
  replace (2 * (m mod 2 ^ k * 2 ^ j)) with ((2 * (m mod 2 ^ k)) * 2 ^ j) by ring.
  rewrite <- Zmult_compare_compat_r by lia. reflexivity.
Qed.

Lemma round_int_exact (m k j : Z) :
  0 < k -> k <= j -> round_int (m * 2 ^ j) k = m * 2 ^ (j - k).
Proof.
  intros Hk Hj. unfold round_int.
  pose proof (pow2_pos k) as Hpk.
  replace (m * 2 ^ j) with (m * 2 ^ (j - k) * 2 ^ k)
    by (rewrite <- Z.mul_assoc, <- pow2_split by lia; do 2 f_equal; lia).
  rewrite Z.div_mul by lia. rewrite Z.mod_mul by lia.
  destruct (Z.compare_spec (2 * 0) (2 ^ k)); lia.
Qed.

Lemma fexp_eq (z : Z) : fexp prec emax z = Z.max (z - 53) (-1074).
Proof. reflexivity. Qed.

Lemma emin_eq : emin prec emax = -1074.
Proof. reflexivity. Qed.

Lemma prec_eq : prec = 53.
Proof. reflexivity. Qed.

Lemma emax_eq : emax = 1024.
Proof. reflexivity. Qed.

Lemma rnd_exact (m e : Z) :
  fexp prec emax (dig m + e) <= e ->
  rnd m e = (m * 2 ^ (e - fexp prec emax (dig m + e)), fexp prec emax (dig m + e)).
Proof.
  intros H. unfold rnd. apply Z.leb_le in H. rewrite H. reflexivity.
Qed.

Lemma rnd_round (m e : Z) :
  e < fexp prec emax (dig m + e) ->
  rnd m e =
  if round_int m (fexp prec emax (dig m + e) - e) =? 2 ^ prec
  then (2 ^ (prec - 1), fexp prec emax (dig m + e) + 1)
  else (round_int m (fexp prec emax (dig m + e) - e), fexp prec emax (dig m + e)).
Proof.
  intros H. unfold rnd. apply Z.leb_gt in H. rewrite H. reflexivity.
Qed.

(** The quotient by [2^k] has at most [prec] digits when [k] is at least
    [dig m - prec], and exactly [prec] when [k] is [dig m - prec]. *)
Lemma quot_upper (m k : Z) :
  0 < m -> 0 <= k -> dig m - 53 <= k -> m / 2 ^ k < 2 ^ 53.
Proof.
  intros Hm Hk Hd. pose proof (dig_bounds m Hm) as [_ Hhi].
  apply Z.div_lt_upper_bound; [apply pow2_pos; lia |].
  rewrite <- pow2_split by lia.
  eapply Z.lt_le_trans; [exact Hhi |]. apply Z.pow_le_mono_r; lia.
Qed.

Lemma quot_lower (m k : Z) :
  0 < m -> 0 <= k -> k = dig m - 53 -> 2 ^ 52 <= m / 2 ^ k.
Proof.
  intros Hm Hk Hd. pose proof (dig_bounds m Hm) as [Hlo _].
  apply Z.div_le_lower_bound; [apply pow2_pos; lia |].
  rewrite Z.mul_comm, <- pow2_split by lia.
  replace (52 + k) with (dig m - 1) by lia. exact Hlo.
Qed.

Lemma rnd_shift (m e j : Z) :
  0 < m -> 0 <= j -> rnd (m * 2 ^ j) (e - j) = rnd m e.
Proof.
  intros Hm Hj. pose proof (pow2_pos j Hj) as Hpj.
  assert (HE : fexp prec emax (dig (m * 2 ^ j) + (e - j)) = fexp prec emax (dig m + e)).
  { rewrite dig_shift by lia. f_equal. lia. }
  destruct (Z_le_gt_dec (fexp prec emax (dig m + e)) e) as [Hle | Hgt].
  - rewrite (rnd_exact m e Hle).
    destruct (Z_le_gt_dec (fexp prec emax (dig m + e)) (e - j)) as [Hle' | Hgt'].
    + rewrite rnd_exact by (rewrite HE; exact Hle'). rewrite HE. f_equal.
      rewrite <- Z.mul_assoc, <- pow2_split by lia. do 2 f_equal. lia.
    + rewrite rnd_round by (rewrite HE; lia). rewrite HE.
      set (E := fexp prec emax (dig m + e)) in *.
      rewrite round_int_exact by lia.
      replace (j - (E - (e - j))) with (e - E) by lia.
      assert (Hlt : m * 2 ^ (e - E) < 2 ^ prec).
      { apply dig_le_iff; [pose proof (pow2_pos (e - E)); nia | rewrite prec_eq; lia |].
        rewrite dig_shift by lia. unfold E. rewrite fexp_eq, prec_eq. lia. }
      destruct (Z.eqb_spec (m * 2 ^ (e - E)) (2 ^ prec)); [lia | reflexivity].
  - rewrite (rnd_round m e) by lia. rewrite rnd_round by (rewrite HE; lia).
    rewrite HE. set (E := fexp prec emax (dig m + e)) in *.
    replace (E - (e - j)) with (E - e + j) by lia.
    rewrite round_int_shift by lia. reflexivity.
Qed.

Lemma rnd_canonical (m e : Z) :
  0 < m ->
  0 <= fst (rnd m e) < 2 ^ 53 /\ -1074 <= snd (rnd m e) /\
  (0 < fst (rnd m e) ->
   fexp prec emax (dig (fst (rnd m e)) + snd (rnd m e)) = snd (rnd m e)).
Proof.
  intros Hm. pose proof (dig_pos m Hm) as Hd.
  destruct (Z_le_gt_dec (fexp prec emax (dig m + e)) e) as [Hle | Hgt].
  - rewrite (rnd_exact m e Hle). cbn [fst snd].
    set (E := fexp prec emax (dig m + e)) in *.
    assert (HE : E = Z.max (dig m + e - 53) (-1074)) by (unfold E; apply fexp_eq).
    assert (Hp : 0 < m * 2 ^ (e - E)) by (pose proof (pow2_pos (e - E)); nia).
    assert (Hdig : dig (m * 2 ^ (e - E)) = dig m + e - E)
      by (rewrite dig_shift by lia; lia).
    split; [split; [lia |] | split; [lia |]].
    + apply dig_le_iff; [exact Hp | lia | lia].
    + intros _. rewrite Hdig. replace (dig m + e - E + E) with (dig m + e) by lia.
      reflexivity.
  - rewrite (rnd_round m e) by lia.
    set (E := fexp prec emax (dig m + e)) in *.
    assert (HE : E = Z.max (dig m + e - 53) (-1074)) by (unfold E; apply fexp_eq).
    pose proof (round_int_bounds m (E - e)) as [Blo Bhi].
    pose proof (quot_upper m (E - e) Hm ltac:(lia) ltac:(lia)) as Hup.
    assert (Hq0 : 0 <= m / 2 ^ (E - e))
      by (apply Z.div_pos; [lia | apply pow2_pos; lia]).
    rewrite prec_eq.
    destruct (Z.eqb_spec (round_int m (E - e)) (2 ^ 53)) as [Heq | Hne];
      cbn [fst snd].
    + split; [lia |]. split; [lia |]. intros _.
      change (53 - 1) with 52. rewrite (dig_unique (2 ^ 52) 53) by lia.
      rewrite fexp_eq. lia.
    + split; [lia |]. split; [lia |]. intros Hpos. rewrite fexp_eq.
      set (q := round_int m (E - e)) in *.
      assert (Hdq : dig q <= 53) by (apply dig_le_iff; lia).
      destruct (Z.eq_dec E (-1074)) as [Hmin | Hnmin]; [lia |].
      assert (Hk : E - e = dig m - 53) by lia.
      pose proof (quot_lower m (E - e) Hm ltac:(lia) Hk) as Hlo.
      rewrite (dig_unique q 53) by lia. lia.
Qed.

(** Monotonicity on one exponent: the rounded pairs are ordered first by
    exponent, then by mantissa. *)
Lemma rnd_mono (m1 m2 e : Z) :
  0 < m1 -> m1 <= m2 ->
  fst (rnd m1 e) = 0 \/
  (0 < fst (rnd m2 e) /\
   (snd (rnd m1 e) < snd (rnd m2 e) \/
    (snd (rnd m1 e) = snd (rnd m2 e) /\ fst (rnd m1 e) <= fst (rnd m2 e)))).
Proof.
  intros Hm1 Hm. assert (Hm2 : 0 < m2) by lia.
  pose proof (dig_mono m1 m2 Hm) as Hd.
  pose proof (dig_pos m1 Hm1) as Hd1.
  pose proof (rnd_canonical m1 e Hm1) as (B1 & _ & _).
  set (E1 := fexp prec emax (dig m1 + e)).
  set (E2 := fexp prec emax (dig m2 + e)).
  assert (HE1 : E1 = Z.max (dig m1 + e - 53) (-1074)) by (unfold E1; apply fexp_eq).
  assert (HE2 : E2 = Z.max (dig m2 + e - 53) (-1074)) by (unfold E2; apply fexp_eq).
  destruct (Z_le_gt_dec E2 e) as [Hle2 | Hgt2].
  - (* the larger one is representable as it is, hence so is the smaller *)
    assert (Hle1 : E1 <= e) by lia.
    rewrite (rnd_exact m1 e Hle1), (rnd_exact m2 e Hle2). cbn [fst snd].
    fold E1 E2. right.
    pose proof (pow2_pos (e - E1)). pose proof (pow2_pos (e - E2)).
    split; [nia |].
    destruct (Z.eq_dec E1 E2) as [Heq | Hne]; [| lia].
    right. split; [exact Heq |]. rewrite Heq. nia.
  - rewrite (rnd_round m2 e) by (fold E2; lia). fold E2.
    pose proof (round_int_bounds m2 (E2 - e)) as [Blo2 Bhi2].
    pose proof (quot_upper m2 (E2 - e) Hm2 ltac:(lia) ltac:(lia)) as Hup2.
    rewrite prec_eq. change (53 - 1) with 52.
    destruct (Z_le_gt_dec E1 e) as [Hle1 | Hgt1].
    + (* the smaller one is representable, the larger one is rounded *)
      rewrite (rnd_exact m1 e Hle1). fold E1. cbn [fst snd].
      assert (Hk : E2 - e = dig m2 - 53) by lia.
      pose proof (quot_lower m2 (E2 - e) Hm2 ltac:(lia) Hk) as Hlo2.
      right.
      destruct (Z.eqb_spec (round_int m2 (E2 - e)) (2 ^ 53)); cbn [fst snd]; lia.
    + rewrite (rnd_round m1 e) by (fold E1; lia). fold E1.
      rewrite prec_eq. change (53 - 1) with 52.
      pose proof (round_int_bounds m1 (E1 - e)) as [Blo1 Bhi1].
      pose proof (quot_upper m1 (E1 - e) Hm1 ltac:(lia) ltac:(lia)) as Hup1.
      assert (Hq1 : 0 <= m1 / 2 ^ (E1 - e))
        by (apply Z.div_pos; [lia | apply pow2_pos; lia]).
      destruct (Z.eq_dec E1 E2) as [Heq | Hne].
      * (* same exponent: the integer rounding is monotone *)
        pose proof (round_int_mono m1 m2 (E1 - e) ltac:(lia) Hm) as Hmono.
        rewrite <- Heq in *.
        destruct (Z.eqb_spec (round_int m1 (E1 - e)) (2 ^ 53));
          destruct (Z.eqb_spec (round_int m2 (E1 - e)) (2 ^ 53));
          cbn [fst snd]; lia.
      * (* the larger one has more digits and lies in a higher binade *)
        assert (Hk : E2 - e = dig m2 - 53) by lia.
        pose proof (quot_lower m2 (E2 - e) Hm2 ltac:(lia) Hk) as Hlo2.
        destruct (Z.eqb_spec (round_int m1 (E1 - e)) (2 ^ 53));
          destruct (Z.eqb_spec (round_int m2 (E2 - e)) (2 ^ 53));
          cbn [fst snd]; lia.
Qed.

(** ** [SpecFloat]'s rounding computes [rnd] *)

Lemma digits2_pos_dig (p : positive) : Z.pos (digits2_pos p) = dig (Z.pos p).
Proof.
  unfold dig.
  assert (Hsize : forall q, digits2_pos q = Pos.size q)
    by (induction q; simpl; congruence).
  rewrite Hsize. destruct p; simpl; lia.
Qed.

Lemma iter_xO_pow (m d : positive) :
  Z.pos (Pos.iter xO m d) = Z.pos m * 2 ^ Z.pos d.
Proof.
  induction d as [| d IH] using Pos.peano_ind.
  - simpl. lia.
  - rewrite Pos.iter_succ, Pos2Z.inj_xO, IH, Pos2Z.inj_succ.
    rewrite Z.pow_succ_r by lia. ring.
Qed.

Lemma iter_pos_nat {A : Type} (f : A -> A) (p : positive) (x : A) :
  iter_pos f p x = Nat.iter (Pos.to_nat p) f x.
Proof.
  revert x. induction p as [p IH | p IH |]; intros x; cbn [iter_pos].
  - rewrite !IH, Pos2Nat.inj_xI, <- Nat.iter_succ_r.
    replace (S (2 * Pos.to_nat p)) with (Pos.to_nat p + S (Pos.to_nat p))%nat by lia.
    rewrite Nat.iter_add. reflexivity.
  - rewrite !IH, Pos2Nat.inj_xO.
    replace (2 * Pos.to_nat p)%nat with (Pos.to_nat p + Pos.to_nat p)%nat by lia.
    rewrite Nat.iter_add. reflexivity.
  - reflexivity.
Qed.

Lemma shr_1_spec (m : Z) (r s : bool) :
  0 <= m ->
  shr_1 (Build_shr_record m r s) = Build_shr_record (m / 2) (Z.odd m) (r || s).
Proof.
  intros Hm. rewrite <- Z.div2_div.
  destruct m as [| [p | p |] | p]; try reflexivity. lia.
Qed.

Lemma mod_pow2_succ (m n : Z) :
  0 <= n ->
  m mod 2 ^ (n + 1) = m mod 2 ^ n + 2 ^ n * (if Z.odd (m / 2 ^ n) then 1 else 0).
Proof.
  intros Hn. pose proof (pow2_pos n Hn).
  rewrite pow2_split by lia. change (2 ^ 1) with 2.
  rewrite Z.rem_mul_r by lia. rewrite Zmod_odd. reflexivity.
Qed.

(** After [n + 1] one-bit shifts of [m]: the quotient by [2^(n+1)], the bit
    shifted out last, and whether any bit shifted out before was set. *)
Lemma shr_iter (m : Z) (n : nat) :
  0 <= m ->
  Nat.iter (S n) shr_1 (Build_shr_record m false false) =
  Build_shr_record (m / 2 ^ (Z.of_nat n + 1))
                   (Z.odd (m / 2 ^ Z.of_nat n))
                   (negb (m mod 2 ^ Z.of_nat n =? 0)).
Proof.
  intros Hm. induction n as [| n IH].
  - cbn [Nat.iter]. rewrite shr_1_spec by exact Hm.
    change (2 ^ (Z.of_nat 0 + 1)) with 2. change (2 ^ Z.of_nat 0) with 1.
    rewrite Z.div_1_r, Z.mod_1_r. reflexivity.
  - change (Nat.iter (S (S n)) shr_1 (Build_shr_record m false false))
      with (shr_1 (Nat.iter (S n) shr_1 (Build_shr_record m false false))).
    rewrite IH.
    pose proof (pow2_pos (Z.of_nat n + 1) ltac:(lia)) as Hp.
    rewrite shr_1_spec by (apply Z.div_pos; lia).
    replace (Z.of_nat (S n)) with (Z.of_nat n + 1) by lia.
    f_equal.
    + rewrite Z.div_div by lia. rewrite (pow2_split (Z.of_nat n + 1) 1) by lia.
      reflexivity.
    + rewrite (mod_pow2_succ m (Z.of_nat n)) by lia.
      pose proof (pow2_pos (Z.of_nat n) ltac:(lia)) as Hpn.
      pose proof (Z.mod_pos_bound m (2 ^ Z.of_nat n) Hpn) as Hb.
      destruct (Z.odd (m / 2 ^ Z.of_nat n)); cbn [orb].
      * symmetry. apply negb_true_iff, Z.eqb_neq. lia.
      * rewrite Z.mul_0_r, Z.add_0_r. reflexivity.
Qed.

Lemma shr_round (m : Z) (n : nat) :
  0 <= m ->
  let r := Nat.iter (S n) shr_1 (Build_shr_record m false false) in
  round_nearest_even (shr_m r) (loc_of_shr_record r) = round_int m (Z.of_nat n + 1).
Proof.
  intros Hm. cbv zeta. rewrite (shr_iter m n Hm).
  unfold round_int. rewrite (mod_pow2_succ m (Z.of_nat n)) by lia.
  pose proof (pow2_pos (Z.of_nat n) ltac:(lia)) as Hpn.
  pose proof (Z.mod_pos_bound m (2 ^ Z.of_nat n) Hpn) as Hb.
  rewrite (pow2_split (Z.of_nat n) 1) by lia. change (2 ^ 1) with 2.
  set (q := m / (2 ^ Z.of_nat n * 2)).
  set (lo := m mod 2 ^ Z.of_nat n) in *.
  destruct (Z.odd (m / 2 ^ Z.of_nat n)); cbn [loc_of_shr_record shr_m shr_r shr_s].
  - destruct (Z.eqb_spec lo 0) as [H0 | H0]; cbn [negb round_nearest_even].
    + destruct (Z.compare_spec (2 * (lo + 2 ^ Z.of_nat n * 1)) (2 ^ Z.of_nat n * 2));
        first [lia | reflexivity].
    + destruct (Z.compare_spec (2 * (lo + 2 ^ Z.of_nat n * 1)) (2 ^ Z.of_nat n * 2));
        first [lia | reflexivity].
  - destruct (Z.compare_spec (2 * (lo + 2 ^ Z.of_nat n * 0)) (2 ^ Z.of_nat n * 2));
      try lia.
    all: destruct (Z.eqb_spec lo 0); reflexivity.
Qed.

Lemma shr_no_shift (mrs : shr_record) (e n : Z) : n <= 0 -> shr mrs e n = (mrs, e).
Proof. intros H. destruct n; [reflexivity | lia | reflexivity]. Qed.

Lemma aux_exact (s : bool) (M : positive) (E : Z) :
  fexp prec emax (dig (Z.pos M) + E) = E ->
  binary_round_aux prec emax s (Z.pos M) E loc_Exact = pack s (Z.pos M, E).
Proof.
  intros H. unfold binary_round_aux, shr_fexp.
  cbn [Zdigits2 shr_record_of_loc]. rewrite digits2_pos_dig, H, Z.sub_diag.
  cbn [shr shr_m loc_of_shr_record round_nearest_even Zdigits2 shr_record_of_loc].
  rewrite digits2_pos_dig, H, Z.sub_diag. reflexivity.
Qed.

Lemma aux_round (s : bool) (M : positive) (e : Z) :
  e < fexp prec emax (dig (Z.pos M) + e) ->
  binary_round_aux prec emax s (Z.pos M) e loc_Exact = pack s (rnd (Z.pos M) e).
Proof.
  intros Hlt.
  pose proof (rnd_canonical (Z.pos M) e ltac:(lia)) as (Hb & Hmin & Hcan).
  rewrite (rnd_round _ _ Hlt) in *.
  unfold binary_round_aux, shr_fexp.
  cbn [Zdigits2 shr_record_of_loc]. rewrite digits2_pos_dig.
  set (E := fexp prec emax (dig (Z.pos M) + e)) in *.
  assert (HE : E = Z.max (dig (Z.pos M) + e - 53) (-1074)) by (unfold E; apply fexp_eq).
  destruct (E - e) as [| p | p] eqn:Hk; try lia.
  cbn [shr]. rewrite iter_pos_nat.
  destruct (Pos2Nat.is_succ p) as [n Hn]. rewrite Hn.
  rewrite (shr_round (Z.pos M) n ltac:(lia)).
  replace (Z.of_nat n + 1) with (Z.pos p) by lia.
  replace (e + Z.pos p) with E by lia.
  set (q := round_int (Z.pos M) (Z.pos p)) in *.
  change (2 ^ prec) with (2 ^ 53) in *.
  change (2 ^ (prec - 1)) with (2 ^ 52) in *.
  destruct (Z.eqb_spec q (2 ^ 53)) as [Heq | Hne]; cbn [fst snd] in *.
  - (* the rounded mantissa has one digit too many *)
    rewrite Heq. change (Zdigits2 (2 ^ 53)) with 54.
    replace (fexp prec emax (54 + E) - E) with 1 by (rewrite fexp_eq; lia).
    reflexivity.
  - destruct q as [| q' | q'] eqn:Hq; try lia.
    + rewrite shr_no_shift by (cbn [Zdigits2]; rewrite fexp_eq; lia).
      reflexivity.
    + cbn [Zdigits2]. rewrite digits2_pos_dig, (Hcan ltac:(lia)), Z.sub_diag.
      reflexivity.
Qed.

Lemma round_spec (s : bool) (m : positive) (e : Z) :
  binary_round prec emax s m e = pack s (rnd (Z.pos m) e).
Proof.
  unfold binary_round. rewrite digits2_pos_dig.
  set (E := fexp prec emax (dig (Z.pos m) + e)).
  unfold shl_align. destruct (E - e) as [| p | d] eqn:Hk.
  - assert (HE : E = e) by lia.
    rewrite aux_exact by (fold E; exact HE).
    rewrite rnd_exact by (fold E; lia). fold E.
    rewrite HE, Z.sub_diag, Z.mul_1_r. reflexivity.
  - apply aux_round. fold E. lia.
  - assert (Hd : Z.pos d = e - E) by lia.
    assert (Hdig : dig (Z.pos (Pos.iter xO m d)) + E = dig (Z.pos m) + e).
    { rewrite iter_xO_pow, dig_shift by lia. lia. }
    rewrite aux_exact by (rewrite Hdig; reflexivity).
    rewrite rnd_exact by (fold E; lia). fold E.
    rewrite iter_xO_pow, Hd. reflexivity.
Qed.

(** ** Signed rounding is monotone *)

Lemma BN_pos (z e : Z) : 0 < z -> BN z e = pack false (rnd z e).
Proof.
  intros Hz. destruct z as [| p | p]; try lia. apply round_spec.
Qed.

Lemma BN_neg (z e : Z) : z < 0 -> BN z e = pack true (rnd (- z) e).
Proof.
  intros Hz. destruct z as [| p | p]; try lia. apply round_spec.
Qed.

Lemma BN_zero (e : Z) : BN 0 e = S754_zero false.
Proof. reflexivity. Qed.

Lemma BN_shift (z e j : Z) : 0 <= j -> BN (z * 2 ^ j) (e - j) = BN z e.
Proof.
  intros Hj. pose proof (pow2_pos j Hj) as Hp.
  destruct (Z.lt_trichotomy z 0) as [Hz | [-> | Hz]].
  - rewrite !BN_neg by nia.
    replace (- (z * 2 ^ j)) with (- z * 2 ^ j) by ring.
    rewrite rnd_shift by lia. reflexivity.
  - reflexivity.
  - rewrite !BN_pos by nia. rewrite rnd_shift by lia. reflexivity.
Qed.

(** What [pack] can produce from a rounded pair. *)
Lemma pack_cases (s : bool) (m e : Z) :
  0 < m ->
  pack s (rnd m e) = S754_zero s \/
  pack s (rnd m e) = S754_infinity s \/
  exists M E, pack s (rnd m e) = S754_finite s M E /\
              bounded prec emax M E = true /\
              rnd m e = (Z.pos M, E).
Proof.
  intros Hm. pose proof (rnd_canonical m e Hm) as (Hb & Hmin & Hcan).
  unfold pack. destruct (rnd m e) as [M E]. cbn [fst snd] in *.
  destruct M as [| M | M]; [left; reflexivity | | lia].
  destruct (Z.leb_spec E (emax - prec)) as [Hle | Hgt]; [| right; left; reflexivity].
  right; right. exists M, E. split; [reflexivity |]. split; [| reflexivity].
  unfold bounded, canonical_mantissa. rewrite digits2_pos_dig.
  rewrite (Hcan ltac:(lia)), Z.eqb_refl. apply Z.leb_le. exact Hle.
Qed.

Lemma pack_valid (s : bool) (m e : Z) :
  0 < m -> valid_binary prec emax (pack s (rnd m e)) = true.
Proof.
  intros Hm.
  destruct (pack_cases s m e Hm) as [-> | [-> | (M & E & -> & Hb & _)]];
    [reflexivity | reflexivity | exact Hb].
Qed.

Lemma BN_valid (z e : Z) : valid_binary prec emax (BN z e) = true.
Proof.
  destruct (Z.lt_trichotomy z 0) as [Hz | [-> | Hz]].
  - rewrite BN_neg by lia. apply pack_valid. lia.
  - reflexivity.
  - rewrite BN_pos by lia. apply pack_valid. lia.
Qed.

Lemma BN_not_nan (z e : Z) : BN z e <> nan.
Proof.
  destruct (Z.lt_trichotomy z 0) as [Hz | [-> | Hz]].
  - rewrite BN_neg by lia.
    destruct (pack_cases true (- z) e ltac:(lia)) as [-> | [-> | (M & E & -> & _)]];
      discriminate.
  - discriminate.
  - rewrite BN_pos by lia.
    destruct (pack_cases false z e ltac:(lia)) as [-> | [-> | (M & E & -> & _)]];
      discriminate.
Qed.

Lemma pack_le_pos (r1 r2 : Z * Z) :
  0 <= fst r1 -> 0 <= fst r2 ->
  fst r1 = 0 \/
  (0 < fst r2 /\
   (snd r1 < snd r2 \/ (snd r1 = snd r2 /\ fst r1 <= fst r2))) ->
  fle (pack false r1) (pack false r2) = true /\
  fle (pack true r2) (pack true r1) = true.
Proof.
  destruct r1 as [M1 E1], r2 as [M2 E2]. cbn [fst snd]. intros H1 H2 H.
  unfold pack, fle, SFleb, SFcompare. cbn [fst snd].
  destruct M1 as [| M1 | M1], M2 as [| M2 | M2]; try lia;
    destruct (Z.leb_spec E1 (emax - prec)), (Z.leb_spec E2 (emax - prec));
    try (split; reflexivity); try lia;
    split; float_cases.
Qed.

Lemma fle_zero_pack (s : bool) (m e : Z) :
  0 < m ->
  fle (S754_zero s) (pack false (rnd m e)) = true /\
  fle (pack true (rnd m e)) (S754_zero s) = true /\
  fle (pack true (rnd m e)) (pack false (rnd m e)) = true.
Proof.
  intros Hm.
  destruct (pack_cases false m e Hm) as [-> | [-> | (M & E & -> & _)]];
    destruct (pack_cases true m e Hm) as [-> | [-> | (M' & E' & -> & _)]];
    repeat split; reflexivity.
Qed.

Lemma fle_neg_pos (m1 m2 e1 e2 : Z) :
  0 < m1 -> 0 < m2 ->
  fle (pack true (rnd m1 e1)) (pack false (rnd m2 e2)) = true.
Proof.
  intros H1 H2.
  destruct (pack_cases true m1 e1 H1) as [-> | [-> | (M & E & -> & _)]];
    destruct (pack_cases false m2 e2 H2) as [-> | [-> | (M' & E' & -> & _)]];
    reflexivity.
Qed.

Lemma BN_mono (z1 z2 e : Z) : z1 <= z2 -> fle (BN z1 e) (BN z2 e) = true.
Proof.
  intros Hz.
  destruct (Z.lt_trichotomy z1 0) as [H1 | [-> | H1]];
    destruct (Z.lt_trichotomy z2 0) as [H2 | [-> | H2]]; try lia.
  - rewrite !BN_neg by lia.
    pose proof (rnd_canonical (- z1) e ltac:(lia)) as (B1 & _).
    pose proof (rnd_canonical (- z2) e ltac:(lia)) as (B2 & _).
    apply (pack_le_pos (rnd (- z2) e) (rnd (- z1) e)); try lia.
    apply rnd_mono; lia.
  - rewrite BN_neg by lia. apply (fle_zero_pack false); lia.
  - rewrite BN_neg, BN_pos by lia. apply fle_neg_pos; lia.
  - reflexivity.
  - rewrite (BN_pos z2) by lia. apply (fle_zero_pack false); lia.
  - rewrite !BN_pos by lia.
    pose proof (rnd_canonical z1 e ltac:(lia)) as (B1 & _).
    pose proof (rnd_canonical z2 e ltac:(lia)) as (B2 & _).
    apply (pack_le_pos (rnd z1 e) (rnd z2 e)); try lia.
    apply rnd_mono; lia.
Qed.

(** ** Well-formed floats and their values *)

Lemma bounded_facts (m : positive) (e : Z) :
  bounded prec emax m e = true ->
  fexp prec emax (dig (Z.pos m) + e) = e /\
  -1074 <= e <= 971 /\
  dig (Z.pos m) <= 53 /\
  (-1074 < e -> dig (Z.pos m) = 53).
Proof.
  unfold bounded, canonical_mantissa. rewrite digits2_pos_dig.
  intros H. apply andb_true_iff in H. destruct H as [Hc He].
  apply Z.eqb_eq in Hc. apply Z.leb_le in He.
  rewrite emax_eq, prec_eq in He.
  split; [exact Hc |]. rewrite fexp_eq in Hc. lia.
Qed.

Lemma fval_finite (s : bool) (m : positive) (e : Z) :
  fval (S754_finite s m e) = cond_Zopp s (Z.pos m * 2 ^ (e + 1074)).
Proof. unfold fval. rewrite emin_eq. do 3 f_equal; lia. Qed.

(** On well-formed mantissas a smaller exponent gives a smaller value. *)
Lemma lex_val (m1 m2 : positive) (e1 e2 : Z) :
  bounded prec emax m1 e1 = true -> bounded prec emax m2 e2 = true ->
  e1 < e2 ->
  Z.pos m1 * 2 ^ (e1 + 1074) < Z.pos m2 * 2 ^ (e2 + 1074).
Proof.
  intros B1 B2 Hlt.
  apply bounded_facts in B1. destruct B1 as (_ & R1 & D1 & _).
  apply bounded_facts in B2. destruct B2 as (_ & R2 & _ & D2).
  assert (H1 : Z.pos m1 < 2 ^ 53) by (apply dig_le_iff; lia).
  pose proof (dig_bounds (Z.pos m2) ltac:(lia)) as [H2 _].
  rewrite (D2 ltac:(lia)) in H2. change (53 - 1) with 52 in H2.
  pose proof (pow2_pos (e1 + 1074) ltac:(lia)) as P1.
  pose proof (pow2_pos (e2 + 1074) ltac:(lia)) as P2.
  assert (Hp : 2 ^ 53 * 2 ^ (e1 + 1074) <= 2 ^ 52 * 2 ^ (e2 + 1074)).
  { rewrite <- !pow2_split by lia. apply Z.pow_le_mono_r; lia. }
  nia.
Qed.

Lemma fval_le (x y : float) :
  is_finite x = true -> is_finite y = true ->
  fle x y = true -> fval x <= fval y.
Proof.
  destruct x as [sx | sx | | sx mx ex], y as [sy | sy | | sy my ey];
    cbn [is_finite]; try discriminate; intros Hx Hy; try rewrite !fval_finite.
  - pose proof (pow2_pos (ey + 1074)
                  ltac:(apply bounded_facts in Hy; lia)) as P.
    destruct sy; [discriminate |]. intros _. cbn [fval cond_Zopp]. nia.
  - pose proof (pow2_pos (ex + 1074)
                  ltac:(apply bounded_facts in Hx; lia)) as P.
    destruct sx; [| discriminate]. intros _. cbn [fval cond_Zopp]. nia.
  - pose proof (pow2_pos (ex + 1074)
                  ltac:(pose proof (bounded_facts _ _ Hx); lia)) as Px.
    pose proof (pow2_pos (ey + 1074)
                  ltac:(pose proof (bounded_facts _ _ Hy); lia)) as Py.
    unfold fle, SFleb, SFcompare.
    destruct sx, sy; cbn [cond_Zopp]; try discriminate; try (intros _; nia).
    + (* both negative *)
      destruct (Z.compare_spec ex ey) as [-> | Hlt | Hgt]; try discriminate.
      * change (Pos.compare_cont Eq mx my) with (Pos.compare mx my).
        destruct (Pos.compare_spec mx my); cbn [CompOpp]; try discriminate;
          intros _; [subst; lia | nia].
      * intros _. pose proof (lex_val my mx ey ex Hy Hx ltac:(lia)). lia.
    + (* both positive *)
      destruct (Z.compare_spec ex ey) as [-> | Hlt | Hgt]; try discriminate.
      * change (Pos.compare_cont Eq mx my) with (Pos.compare mx my).
        destruct (Pos.compare_spec mx my); try discriminate;
          intros _; [subst; lia | nia].
      * intros _. pose proof (lex_val mx my ex ey Hx Hy ltac:(lia)). lia.
Qed.

(** A well-formed finite float is the rounding of its own value. *)
Lemma BN_fval (s : bool) (m : positive) (e : Z) :
  bounded prec emax m e = true ->
  BN (cond_Zopp s (Z.pos m * 2 ^ (e + 1074))) (-1074) = S754_finite s m e.
Proof.
  intros Hb. pose proof (bounded_facts m e Hb) as (Hc & Hr & _).
  pose proof (pow2_pos (e + 1074) ltac:(lia)) as P.
  assert (Hrnd : rnd (Z.pos m * 2 ^ (e + 1074)) (-1074) = (Z.pos m, e)).
  { replace (-1074) with (e - (e + 1074)) by lia.
    rewrite rnd_shift by lia. rewrite rnd_exact by lia.
    rewrite Hc, Z.sub_diag, Z.mul_1_r. reflexivity. }
  assert (Hpack : forall s', pack s' (Z.pos m, e) = S754_finite s' m e).
  { intros s'. unfold pack. cbn [fst snd].
    change (emax - prec) with 971.
    destruct (Z.leb_spec e 971); [reflexivity | lia]. }
  destruct s; cbn [cond_Zopp].
  - rewrite BN_neg by nia. rewrite Z.opp_involutive, Hrnd. apply Hpack.
  - rewrite BN_pos by nia. rewrite Hrnd. apply Hpack.
Qed.

Lemma fle_feqv (x x' y y' : float) :
  feqv x x' -> feqv y y' -> fle x y = fle x' y'.
Proof.
  intros [-> | (s1 & s1' & -> & ->)] [-> | (s2 & s2' & -> & ->)];
    try reflexivity;
    try (destruct x' as [[] | [] | | [] m e]; reflexivity);
    try (destruct y' as [[] | [] | | [] m e]; reflexivity).
Qed.

Lemma feqv_BN_valid (x : float) (z e : Z) :
  feqv x (BN z e) -> valid_binary prec emax x = true /\ x <> nan.
Proof.
  intros [-> | (s & s' & -> & _)].
  - split; [apply BN_valid | apply BN_not_nan].
  - split; [reflexivity | discriminate].
Qed.

(** ** Addition and multiplication as roundings of exact results *)

Lemma shl_align_fst (mx : positive) (ex ez : Z) :
  ez <= ex ->
  Z.pos (fst (shl_align mx ex ez)) = Z.pos mx * 2 ^ (ex - ez).
Proof.
  intros H. unfold shl_align. destruct (ez - ex) as [| p | d] eqn:Hd; cbn [fst].
  - replace (ex - ez) with 0 by lia. lia.
  - lia.
  - rewrite iter_xO_pow. do 2 f_equal. lia.
Qed.

Lemma cond_Zopp_mul (s : bool) (a b : Z) : cond_Zopp s a * b = cond_Zopp s (a * b).
Proof. destruct s; cbn [cond_Zopp]; ring. Qed.

Lemma fadd_BN (a t : float) :
  is_finite a = true -> is_finite t = true ->
  feqv (fadd a t) (BN (fval a + fval t) (-1074)).
Proof.
  destruct a as [sa | sa | | sa ma ea], t as [st | st | | st mt et];
    cbn [is_finite]; try discriminate; intros Ha Ht.
  - right. cbn [fval]. rewrite BN_zero.
    destruct sa, st; eexists; eexists; split; reflexivity.
  - left. rewrite fval_finite. cbn [fval]. rewrite Z.add_0_l, BN_fval by exact Ht.
    reflexivity.
  - left. rewrite fval_finite. cbn [fval]. rewrite Z.add_0_r, BN_fval by exact Ha.
    reflexivity.
  - left. rewrite !fval_finite.
    pose proof (bounded_facts _ _ Ha) as (_ & Ra & _).
    pose proof (bounded_facts _ _ Ht) as (_ & Rt & _).
    unfold fadd, SFadd. fold (BN (cond_Zopp sa (Z.pos (fst (shl_align ma ea (Z.min ea et))))
                                  + cond_Zopp st (Z.pos (fst (shl_align mt et (Z.min ea et)))))
                                 (Z.min ea et)).
    rewrite !shl_align_fst by lia.
    set (ez := Z.min ea et).
    rewrite <- (BN_shift _ ez (ez + 1074)) by lia.
    replace (ez - (ez + 1074)) with (-1074) by lia.
    f_equal. rewrite Z.mul_add_distr_r, !cond_Zopp_mul, <- !Z.mul_assoc.
    rewrite <- !pow2_split by lia.
    replace (ea - ez + (ez + 1074)) with (ea + 1074) by lia.
    replace (et - ez + (ez + 1074)) with (et + 1074) by lia.
    reflexivity.
Qed.

Lemma dig_mul_lower (a b : Z) :
  0 < a -> 0 < b -> dig a + dig b - 1 <= dig (a * b).
Proof.
  intros Ha Hb.
  pose proof (dig_bounds a Ha) as [La _]. pose proof (dig_bounds b Hb) as [Lb _].
  pose proof (dig_pos a Ha). pose proof (dig_pos b Hb).
  destruct (Z_le_gt_dec (dig a + dig b - 1) (dig (a * b))) as [H' | H']; [exact H' |].
  assert (Hlt : a * b < 2 ^ (dig a + dig b - 2))
    by (apply dig_le_iff; [nia | lia | lia]).
  replace (dig a + dig b - 2) with ((dig a - 1) + (dig b - 1)) in Hlt by lia.
  rewrite pow2_split in Hlt by lia.
  pose proof (pow2_pos (dig a - 1) ltac:(lia)).
  pose proof (pow2_pos (dig b - 1) ltac:(lia)). nia.
Qed.

(** The product of two well-formed finite floats is the rounding of the
    exact product. *)
Lemma fmul_finite (s : bool) (mx my : positive) (ex ey : Z) :
  bounded prec emax mx ex = true -> bounded prec emax my ey = true ->
  binary_round_aux prec emax s (Z.pos (mx * my)) (ex + ey) loc_Exact =
  pack s (rnd (Z.pos mx * Z.pos my) (ex + ey)).
Proof.
  intros Hx Hy.
  pose proof (bounded_facts _ _ Hx) as (_ & Rx & Dx & Nx).
  pose proof (bounded_facts _ _ Hy) as (_ & Ry & Dy & Ny).
  pose proof (dig_mul_lower (Z.pos mx) (Z.pos my) ltac:(lia) ltac:(lia)) as Hd.
  pose proof (dig_pos (Z.pos mx) ltac:(lia)).
  pose proof (dig_pos (Z.pos my) ltac:(lia)).
  change (Z.pos mx * Z.pos my) with (Z.pos (mx * my)) in *.
  assert (HE : ex + ey <= fexp prec emax (dig (Z.pos (mx * my)) + (ex + ey)))
    by (rewrite fexp_eq; lia).
  destruct (Z.eq_dec (fexp prec emax (dig (Z.pos (mx * my)) + (ex + ey))) (ex + ey))
    as [Heq | Hne].
  - rewrite aux_exact by exact Heq. rewrite rnd_exact by lia.
    rewrite Heq, Z.sub_diag, Z.mul_1_r. reflexivity.
  - apply aux_round. lia.
Qed.

Lemma pack_BN (s : bool) (z e : Z) :
  0 < z -> pack s (rnd z e) = BN (cond_Zopp s z) e.
Proof.
  intros Hz. destruct s; cbn [cond_Zopp].
  - rewrite BN_neg by lia. rewrite Z.opp_involutive. reflexivity.
  - rewrite BN_pos by lia. reflexivity.
Qed.

Lemma fmul_BN (x : float) (mL : positive) (eL : Z) :
  is_finite x = true -> bounded prec emax mL eL = true ->
  feqv (fmul x (S754_finite false mL eL)) (BN (fval x * Z.pos mL) (eL - 1074)).
Proof.
  destruct x as [sx | sx | | sx mx ex]; cbn [is_finite]; try discriminate;
    intros Hx HL.
  - right. cbn [fval]. rewrite Z.mul_0_l, BN_zero.
    eexists; eexists; split; reflexivity.
  - left. rewrite fval_finite.
    pose proof (bounded_facts _ _ Hx) as (_ & Rx & _).
    unfold fmul, SFmul. rewrite xorb_false_r.
    rewrite (fmul_finite sx mx mL ex eL Hx HL).
    rewrite pack_BN by lia.
    rewrite <- (BN_shift _ (ex + eL) (ex + 1074)) by lia.
    replace (ex + eL - (ex + 1074)) with (eL - 1074) by lia.
    f_equal. rewrite !cond_Zopp_mul. f_equal. ring.
Qed.

Lemma fmul_mono (x1 x2 : float) (mL : positive) (eL : Z) :
  is_finite x1 = true -> is_finite x2 = true ->
  bounded prec emax mL eL = true ->
  fle x1 x2 = true ->
  fle (fmul x1 (S754_finite false mL eL)) (fmul x2 (S754_finite false mL eL)) = true.
Proof.
  intros H1 H2 HL Hle.
  rewrite (fle_feqv _ _ _ _ (fmul_BN x1 mL eL H1 HL) (fmul_BN x2 mL eL H2 HL)).
  apply BN_mono. pose proof (fval_le x1 x2 H1 H2 Hle). nia.
Qed.

Lemma fadd_mono (a t1 t2 : float) :
  is_finite a = true -> is_finite t1 = true -> is_finite t2 = true ->
  fle t1 t2 = true -> fle (fadd a t1) (fadd a t2) = true.
Proof.
  intros Ha H1 H2 Hle.
  rewrite (fle_feqv _ _ _ _ (fadd_BN a t1 Ha H1) (fadd_BN a t2 Ha H2)).
  apply BN_mono. pose proof (fval_le t1 t2 H1 H2 Hle). lia.
Qed.

(** ** The BIC score does not decrease with the parameter count *)

Lemma classify_valid (x : float) :
  valid_binary prec emax x = true -> x <> nan ->
  x = pos_inf \/ x = neg_inf \/ is_finite x = true.
Proof.
  destruct x as [s | [] | | s m e]; cbn [valid_binary is_finite]; intros Hv Hn.
  - right; right; reflexivity.
  - right; left; reflexivity.
  - left; reflexivity.
  - contradiction Hn. reflexivity.
  - right; right; exact Hv.
Qed.

Lemma flt_top (x y : float) : x = pos_inf \/ x = nan -> flt x y = false.
Proof.
  intros [-> | ->]; destruct y as [[] | [] | | [] m e]; reflexivity.
Qed.

Lemma flt_bot (x y : float) : y = neg_inf \/ y = nan -> flt x y = false.
Proof.
  intros [-> | ->]; destruct x as [[] | [] | | [] m e]; reflexivity.
Qed.

Lemma fadd_pos_inf (a : float) : fadd a pos_inf = pos_inf \/ fadd a pos_inf = nan.
Proof. destruct a as [[] | [] | | [] m e]; auto. Qed.

Lemma fadd_neg_inf (a : float) : fadd a neg_inf = neg_inf \/ fadd a neg_inf = nan.
Proof. destruct a as [[] | [] | | [] m e]; auto. Qed.

Lemma fle_neg_inf_r (x : float) : fle x neg_inf = true -> x = neg_inf.
Proof. destruct x as [[] | [] | | [] m e]; try discriminate. reflexivity. Qed.

Lemma fle_pos_inf_l (y : float) : fle pos_inf y = true -> y = pos_inf.
Proof. destruct y as [[] | [] | | [] m e]; try discriminate. reflexivity. Qed.

Lemma fmul_valid (x y : float) :
  valid_binary prec emax x = true -> valid_binary prec emax y = true ->
  valid_binary prec emax (fmul x y) = true.
Proof.
  destruct x as [sx | sx | | sx mx ex], y as [sy | sy | | sy my ey];
    cbn [valid_binary]; intros Hx Hy; try reflexivity.
  unfold fmul, SFmul. rewrite (fmul_finite _ mx my ex ey Hx Hy).
  apply pack_valid. lia.
Qed.

(** Adding a fixed float to the products of a fixed non-negative finite
    float with two ordered rounded integers never gives a smaller result
    for the larger one. *)
Lemma score_tail_mono (a P1 P2 L : float) :
  valid_binary prec emax a = true ->
  valid_binary prec emax P1 = true -> P1 <> nan ->
  valid_binary prec emax P2 = true -> P2 <> nan ->
  fle P1 P2 = true ->
  is_finite L = true -> fle (S754_zero false) L = true ->
  flt (fadd a (fmul P2 L)) (fadd a (fmul P1 L)) = false.
Proof.
  intros Ha HP1 N1 HP2 N2 Hle HL HL0.
  destruct L as [sL | sL | | sL mL eL]; cbn [is_finite] in HL; try discriminate.
  - (* ln N = 0: every product is a zero, or NaN *)
    clear Hle HP1 HP2 Ha.
    destruct P1 as [[] | [] | | [] m1 e1], P2 as [[] | [] | | [] m2 e2],
             a as [[] | [] | | [] ma ea], sL;
      try reflexivity; try (contradiction N1; reflexivity);
      try (contradiction N2; reflexivity); apply flt_irrefl.
  - destruct sL; [discriminate |].
    destruct (classify_valid P2 HP2 N2) as [-> | [-> | F2]].
    + apply flt_top. cbn [fmul SFmul xorb]. apply fadd_pos_inf.
    + apply fle_neg_inf_r in Hle. subst P1. apply flt_irrefl.
    + destruct (classify_valid P1 HP1 N1) as [-> | [-> | F1]].
      * apply fle_pos_inf_l in Hle. subst P2. discriminate.
      * apply flt_bot. cbn [fmul SFmul xorb]. apply fadd_neg_inf.
      * pose proof (fmul_mono P1 P2 mL eL F1 F2 HL Hle) as HT.
        destruct (feqv_BN_valid _ _ _ (fmul_BN P1 mL eL F1 HL)) as [V1 NT1].
        destruct (feqv_BN_valid _ _ _ (fmul_BN P2 mL eL F2 HL)) as [V2 NT2].
        set (T1 := fmul P1 (S754_finite false mL eL)) in *.
        set (T2 := fmul P2 (S754_finite false mL eL)) in *.
        destruct (classify_valid T2 V2 NT2) as [-> | [-> | G2]].
        -- apply flt_top, fadd_pos_inf.
        -- apply fle_neg_inf_r in HT. rewrite HT. apply flt_irrefl.
        -- destruct (classify_valid T1 V1 NT1) as [E1 | [E1 | G1]].
           ++ rewrite E1 in HT. apply fle_pos_inf_l in HT. rewrite HT in G2.
              discriminate.
           ++ rewrite E1. apply flt_bot, fadd_neg_inf.
           ++ destruct a as [sa | sa | | sa ma ea].
              ** apply fle_not_flt, fadd_mono; auto.
              ** assert (Hinf : forall t, is_finite t = true ->
                                  fadd (S754_infinity sa) t = S754_infinity sa)
                   by (intros [| | |] Ht; try discriminate; reflexivity).
                 rewrite !Hinf by assumption. apply flt_irrefl.
              ** reflexivity.
              ** apply fle_not_flt, fadd_mono; auto.
Qed.

Lemma bic_params_mono (Mc n1 n2 : Z) :
  0 <= Mc -> 0 <= n1 <= n2 -> bic_params n1 Mc <= bic_params n2 Mc.
Proof. intros HM Hn. unfold bic_params. rewrite !Z.pow_2_r. nia. Qed.

Lemma float_of_Z_BN (z : Z) : float_of_Z z = BN z 0.
Proof. reflexivity. Qed.

Lemma bic_score_mono (lib : Library) (c : float) (N Mc n1 n2 : Z) :
  valid_binary prec emax c = true ->
  is_finite (np_log lib N) = true ->
  fle (S754_zero false) (np_log lib N) = true ->
  0 <= Mc -> 0 <= n1 <= n2 ->
  flt (bic_score lib c (bic_params n2 Mc) N) (bic_score lib c (bic_params n1 Mc) N) = false.
Proof.
  intros Hc HL HL0 HM Hn. unfold bic_score. rewrite !float_of_Z_BN.
  apply score_tail_mono; try assumption.
  - apply fmul_valid; [apply BN_valid | exact Hc].
  - apply BN_valid.
  - apply BN_not_nan.
  - apply BN_valid.
  - apply BN_not_nan.
  - apply BN_mono, bic_params_mono; assumption.
Qed.

(** ** SelectorDIC *)

Lemma fsub_nan_r (a : float) : fsub a nan = nan.
Proof. destruct a as [[] | [] | | [] m e]; reflexivity. Qed.

Lemma other_words_nil (self : ModelSelector) :
  (forall w, In w (dict_keys (words self)) -> w = this_word self) ->
  other_words self = [].
Proof.
  unfold other_words. induction (dict_keys (words self)) as [| w ws IH]; intros H.
  - reflexivity.
  - simpl. rewrite (H w) by (left; reflexivity). rewrite String.eqb_refl. simpl.
    apply IH. intros w' Hw'. apply H. right. exact Hw'.
Qed.

(** C10: when the corpus holds no word besides the target, the mean over the
    empty list of other-word scores is NaN, every candidate's score is NaN,
    no comparison succeeds and SelectorDIC returns None. *)
Theorem dic_single_label_none (lib : Library) (self : ModelSelector) :
  (forall w, In w (dict_keys (words self)) -> w = this_word self) ->
  np_mean lib [] = nan ->
  result (SelectorDIC_select lib self) = Ok None.
Proof.
  intros Honly Hmean. unfold SelectorDIC_select.
  rewrite dic_loop_result, pick_none_stays; [reflexivity |].
  intros s m Hin. apply in_map_iff in Hin. destruct Hin as (n & Hc & _).
  apply dic_candidate_some in Hc.
  destruct Hc as (logL & others & _ & Hothers & -> & _).
  rewrite (other_words_nil self Honly) in Hothers. inversion Hothers; subst.
  rewrite Hmean, fsub_nan_r. reflexivity.
Qed.

Lemma Forall2_In_l {A B : Type} (R : A -> B -> Prop) (l1 : list A) (l2 : list B) (x : A) :
  Forall2 R l1 l2 -> In x l1 -> exists y, R x y.
Proof.
  induction 1 as [| a b l1 l2 Hab _ IH]; intros Hin; [destruct Hin |].
  destruct Hin as [<- | Hin]; [exists b; exact Hab | exact (IH Hin)].
Qed.

Lemma other_scores_fails (lib : Library) (self : ModelSelector)
    (model : GaussianHMM) (ws : list string) (w : string) (xl : Xlengths) :
  In w (filter (fun w => negb (String.eqb w (this_word self))) ws) ->
  dict_get (hwords self) w = Some xl ->
  hmm_loglik lib model (fst xl) (snd xl) = None ->
  other_scores lib self model ws = None.
Proof.
  intros Hin Hxl Hs.
  destruct (other_scores lib self model ws) as [l |] eqn:Ho; [| reflexivity].
  apply other_scores_spec in Ho.
  destruct (Forall2_In_l _ _ _ _ Ho Hin) as (s & xl' & Hxl' & Hs').
  congruence.
Qed.

Lemma fgt_neg_inf_not_nan (a : float) : fgt a neg_inf = true -> a <> nan.
Proof. intros H ->. discriminate. Qed.

(** C6: for a state count whose training and scorings all succeed, the DIC
    score is the log-likelihood on the word's own data minus the mean of the
    model's scores on the pre-combined data of every other word of the
    corpus; a scoring failure on any other word discards the state count;
    the search never raises, and as soon as one candidate's score exceeds the
    initial -inf it returns the first candidate that no other exceeds. *)
Theorem dic_selects_maximum (lib : Library) (self : ModelSelector) :
  (forall n logL others,
     trained lib self n logL ->
     Forall2 (scored_against lib self (trained_model self n)) (other_words self) others ->
     result (dic_try lib self n)
     = Ok (fsub logL (np_mean lib others), trained_model self n)) /\
  (forall n w xl,
     In w (other_words self) ->
     dict_get (hwords self) w = Some xl ->
     hmm_loglik lib (trained_model self n) (fst xl) (snd xl) = None ->
     (exists e, result (dic_try lib self n) = Raise e) /\
     result (SelectorDIC_select lib self) <> Ok (Some (trained_model self n))) /\
  (exists r, result (SelectorDIC_select lib self) = Ok r) /\
  (forall n s m,
     in_range self n ->
     result (dic_try lib self n) = Ok (s, m) ->
     fgt s neg_inf = true ->
     exists n' s',
       in_range self n' /\
       result (dic_try lib self n') = Ok (s', trained_model self n') /\
       result (SelectorDIC_select lib self) = Ok (Some (trained_model self n')) /\
       (forall k sk mk, in_range self k ->
          result (dic_try lib self k) = Ok (sk, mk) -> fgt sk s' = false) /\
       (forall k sk mk, in_range self k -> k < n' ->
          result (dic_try lib self k) = Ok (sk, mk) -> fle s' sk = false)).
Proof.
  assert (Hspec := pick_spec fgt (fun a b => fle b a)
                     (fun a => flt_irrefl a)
                     (fun a b c H1 H2 => flt_trans c b a H2 H1)
                     (fun a b c H1 H2 => flt_fle_trans c b a H2 H1)
                     (dic_candidate lib self) neg_inf
                     (py_range (min_n_components self) (max_n_components self + 1))).
  assert (Hres := dic_loop_result lib self
                     (py_range (min_n_components self) (max_n_components self + 1))
                     neg_inf None).
  fold (SelectorDIC_select lib self) in Hres.
  destruct (pick fgt _ neg_inf None) as [bs bm]. cbn [snd] in Hres.
  unfold pick_inv in Hspec. cbn [fst snd] in Hspec.
  split; [| split; [| split]].
  - intros n logL others Ht Ho. apply dic_try_ok, dic_candidate_some.
    exists logL, others. auto.
  - intros n w xl Hin Hxl Hs.
    assert (Hnone : dic_candidate lib self n = None).
    { unfold dic_candidate.
      destruct (fit_fails lib n _ _ _); [reflexivity |].
      destruct (hmm_loglik lib (trained_model self n) (X self) (lengths self));
        [| reflexivity].
      rewrite (other_scores_fails lib self _ _ w xl Hin Hxl Hs). reflexivity. }
    split.
    + pose proof (dic_try_result lib self n) as H. rewrite Hnone in H. exact H.
    + rewrite Hres. intros Heq. injection Heq as ->.
      destruct Hspec as (pre & n' & post & _ & Hn' & _).
      apply dic_candidate_some in Hn'.
      destruct Hn' as (l & o & Ht & Ho & _ & Hm).
      apply trained_model_inj in Hm. subst n'.
      assert (Hsome : dic_candidate lib self n
                      = Some (fsub l (np_mean lib o), trained_model self n))
        by (apply dic_candidate_some; exists l, o; auto).
      congruence.
  - eexists. exact Hres.
  - intros n s m Hn Hok Hgt. apply dic_try_ok in Hok.
    destruct bm as [m' |].
    + destruct Hspec as (pre & n' & post & Hsplit & Hn' & Hi & Hall & Hpre).
      pose proof (proj1 (dic_candidate_some lib self n' bs m') Hn')
        as (l & o & _ & _ & _ & ->).
      destruct (py_range_split _ _ _ _ _ Hsplit) as [Hr Hk].
      exists n', bs. split; [unfold in_range; lia |].
      split; [apply dic_try_ok; exact Hn' |]. split; [exact Hres |]. split.
      * intros k sk mk Hkr Hkok. apply dic_try_ok in Hkok.
        apply (Hall k sk mk); [apply in_candidates; exact Hkr | exact Hkok].
      * intros k sk mk Hkr Hlt Hkok. apply dic_try_ok in Hkok.
        apply (Hpre k sk mk); [| exact Hkok].
        apply Hk. unfold in_range in Hkr. lia.
    + destruct Hspec as [_ Hall].
      rewrite (Hall n s m) in Hgt; [discriminate | | exact Hok].
      apply in_candidates. exact Hn.
Qed.

(** ** SelectorBIC *)

Lemma bic_score_formula (lib : Library) (self : ModelSelector) (n : Z) (logL : float) :
  bic_score lib logL (bic_params n (snd (shape (X self)))) (fst (shape (X self)))
  = bic_formula lib self n logL.
Proof.
  unfold bic_score, bic_formula, bic_params. cbv zeta.
  do 3 f_equal. ring.
Qed.

Lemma bic_try_formula (lib : Library) (self : ModelSelector) (n : Z) s m :
  result (bic_try lib self n) = Ok (s, m) <->
  exists logL, trained lib self n logL /\
               s = bic_formula lib self n logL /\ m = trained_model self n.
Proof.
  rewrite bic_try_ok, bic_candidate_some.
  split; intros (l & Ht & Hs & Hm); exists l; (split; [exact Ht |]);
    (split; [| exact Hm]).
  - rewrite <- bic_score_formula. exact Hs.
  - rewrite bic_score_formula. exact Hs.
Qed.

(** C1: for a state count whose training and scoring succeed the BIC score
    is [-2*logL + p*ln(N)] with [p = n^2 + 2*n*M - 1]; the search never
    raises and, as soon as one candidate's score is below the initial +inf,
    returns the first candidate of minimum score; with a log-likelihood that
    is the same for every state count it returns the model of the smallest
    state count. *)
Theorem bic_selects_minimum (lib : Library) (self : ModelSelector) :
  (forall n logL,
     trained lib self n logL ->
     result (bic_try lib self n)
     = Ok (bic_formula lib self n logL, trained_model self n)) /\
  (exists r, result (SelectorBIC_select lib self) = Ok r) /\
  (forall n logL,
     in_range self n ->
     trained lib self n logL ->
     flt (bic_formula lib self n logL) pos_inf = true ->
     exists n' logL',
       in_range self n' /\ trained lib self n' logL' /\
       result (SelectorBIC_select lib self) = Ok (Some (trained_model self n')) /\
       (forall k logLk, in_range self k -> trained lib self k logLk ->
          flt (bic_formula lib self k logLk) (bic_formula lib self n' logL') = false) /\
       (forall k logLk, in_range self k -> k < n' -> trained lib self k logLk ->
          fle (bic_formula lib self k logLk) (bic_formula lib self n' logL') = false)) /\
  (forall c,
     0 <= min_n_components self <= max_n_components self ->
     (forall n, in_range self n -> trained lib self n c) ->
     valid_binary prec emax c = true ->
     is_finite (np_log lib (fst (shape (X self)))) = true ->
     fle (S754_zero false) (np_log lib (fst (shape (X self)))) = true ->
     flt (bic_formula lib self (min_n_components self) c) pos_inf = true ->
     result (SelectorBIC_select lib self)
     = Ok (Some (trained_model self (min_n_components self)))).
Proof.
  assert (Hspec := pick_spec flt fle flt_irrefl flt_trans fle_flt_trans
                     (bic_candidate lib self) pos_inf
                     (py_range (min_n_components self) (max_n_components self + 1))).
  assert (Hres := bic_loop_result lib self
                     (py_range (min_n_components self) (max_n_components self + 1))
                     pos_inf None).
  fold (SelectorBIC_select lib self) in Hres.
  split; [| split; [| split]].
  - intros n logL Ht. apply bic_try_formula. exists logL. auto.
  - eexists. exact Hres.
  - destruct (pick flt _ pos_inf None) as [bs bm]. cbn [snd] in Hres.
    unfold pick_inv in Hspec. cbn [fst snd] in Hspec.
    intros n logL Hn Ht Hlt.
    assert (Hc : bic_candidate lib self n
                 = Some (bic_formula lib self n logL, trained_model self n)).
    { apply bic_try_ok, bic_try_formula. exists logL. auto. }
    destruct bm as [m' |].
    + destruct Hspec as (pre & n' & post & Hsplit & Hn' & Hi & Hall & Hpre).
      pose proof (proj1 (bic_try_formula lib self n' bs m')
                        (proj2 (bic_try_ok lib self n' _) Hn'))
        as (l' & Ht' & -> & ->).
      destruct (py_range_split _ _ _ _ _ Hsplit) as [Hr Hk].
      exists n', l'. split; [unfold in_range; lia |].
      split; [exact Ht' |]. split; [exact Hres |]. split.
      * intros k lk Hkr Hkt.
        apply (Hall k _ (trained_model self k)); [apply in_candidates; exact Hkr |].
        apply bic_try_ok, bic_try_formula. exists lk. auto.
      * intros k lk Hkr Hlt' Hkt.
        apply (Hpre k _ (trained_model self k)).
        -- apply Hk. unfold in_range in Hkr. lia.
        -- apply bic_try_ok, bic_try_formula. exists lk. auto.
    + destruct Hspec as [_ Hall].
      rewrite (Hall n _ _ (proj2 (in_candidates self n) Hn) Hc) in Hlt.
      discriminate.
  - clear Hspec. intros c Hmm Hall Hc Hfin Hpos Hlt.
    rewrite Hres. do 2 f_equal.
    rewrite py_range_cons by lia. cbn [map pick].
    assert (H0 : bic_candidate lib self (min_n_components self)
                 = Some (bic_formula lib self (min_n_components self) c,
                         trained_model self (min_n_components self))).
    { apply bic_try_ok, bic_try_formula. exists c. split; [| auto].
      apply Hall. unfold in_range. lia. }
    rewrite H0, Hlt, pick_none_stays; [reflexivity |].
    intros s m Hin. apply in_map_iff in Hin. destruct Hin as (k & Hk & Hkin).
    apply in_py_range in Hkin.
    assert (Hkc : bic_candidate lib self k
                  = Some (bic_formula lib self k c, trained_model self k)).
    { apply bic_try_ok, bic_try_formula. exists c. split; [| auto].
      apply Hall. unfold in_range. lia. }
    rewrite Hkc in Hk. injection Hk as <- <-.
    rewrite <- !bic_score_formula.
    apply bic_score_mono; try assumption; try lia.
    unfold shape. cbn [snd]. lia.
Qed.

(** ** SelectorCV *)

Lemma kfold_folds_length (sizes : list nat) (current n : nat) :
  length (kfold_folds sizes current n) = length sizes.
Proof.
  revert current. induction sizes as [| sz sizes IH]; intros current; simpl;
    [| rewrite IH]; reflexivity.
Qed.

Lemma fold_sizes_length (k n : nat) : length (fold_sizes k n) = k.
Proof. unfold fold_sizes. rewrite length_map, length_seq. reflexivity. Qed.

Lemma cv_folds_some (lib : Library) (self : ModelSelector) (n : Z)
    (folds : list (list nat * list nat)) (ss : list float) (m : GaussianHMM) r :
  result (cv_folds lib self n folds ss (Some m)) = Ok r -> exists m', snd r = Some m'.
Proof.
  revert ss m. induction folds as [| fold folds IH]; intros ss m; cbn [cv_folds].
  - intros H. injection H as <-. exists m. reflexivity.
  - rewrite result_bind.
    destruct (result (cv_fold lib self n ss fold)) as [[ss' m'] | e];
      [apply IH | discriminate].
Qed.

(** After a completed pass the local [model] is bound, and the pass does not
    depend on what [model] held before: [KFold] yields at least two folds. *)
Lemma cv_state_model (lib : Library) (self : ModelSelector) (n : Z)
    (mv : option GaussianHMM) :
  result (cv_state lib self n mv) = result (cv_state lib self n None) /\
  forall s r, result (cv_state lib self n mv) = Ok (s, r) -> exists m, r = Some m.
Proof.
  unfold cv_state, KFold_new.
  destruct (kfold_n_splits lib <=? 1)%nat eqn:Hk.
  - split; [reflexivity | discriminate].
  - apply Nat.leb_gt in Hk. rewrite !result_bind. cbn [ret result snd].
    rewrite !result_bind. unfold KFold_split.
    destruct (length (sequences self) <? kfold_n_splits lib)%nat.
    + split; [reflexivity | discriminate].
    + cbn [emit bind raise ret result snd app].
      pose proof (kfold_folds_length
                    (fold_sizes (kfold_n_splits lib) (length (sequences self)))
                    0 (length (sequences self))) as Hlen.
      rewrite fold_sizes_length in Hlen.
      destruct (kfold_folds _ 0 (length (sequences self))) as [| fold folds];
        [simpl in Hlen; lia |].
      clear Hlen. split; [reflexivity |].
      intros s r. rewrite result_bind. cbn [cv_folds]. rewrite result_bind.
      destruct (result (cv_fold lib self n [] fold)) as [[ss m] | e] eqn:Hf;
        [| discriminate].
      cbn [fst snd].
      destruct (result (cv_folds lib self n folds ss (Some m))) as [sm |] eqn:Hfs;
        [| discriminate].
      apply cv_folds_some in Hfs. destruct Hfs as [m' Hm'].
      rewrite result_bind.
      destruct (result (try_except (statistics_mean lib (fst sm)) _)); [| discriminate].
      cbn [ret result snd]. intros H. injection H as _ <-. eauto.
Qed.

Lemma cv_candidate_some (lib : Library) (self : ModelSelector) (n : Z) s m :
  cv_candidate lib self n = Some (s, m) <->
  result (cv_state lib self n None) = Ok (s, Some m).
Proof.
  unfold cv_candidate.
  destruct (result (cv_state lib self n None)) as [[s' [m' |]] | e];
    split; congruence.
Qed.

Lemma cv_loop_result (lib : Library) (self : ModelSelector) (ns : list Z)
    (bs : float) (bm mv : option GaussianHMM) :
  (forall n, In n ns -> exists s m, result (cv_state lib self n None) = Ok (s, Some m)) ->
  result (cv_loop lib self ns bs bm mv) =
  Ok (snd (pick fgt (map (cv_candidate lib self) ns) bs bm)).
Proof.
  revert bs bm mv. induction ns as [| n ns IH]; intros bs bm mv Hall.
  - reflexivity.
  - cbn [cv_loop map pick]. rewrite result_bind.
    rewrite (proj1 (cv_state_model lib self n mv)).
    destruct (Hall n (or_introl eq_refl)) as (s & m & Hs).
    rewrite Hs, (proj2 (cv_candidate_some lib self n s m) Hs). cbn [fst snd].
    assert (Hall' : forall k, In k ns ->
                      exists s m, result (cv_state lib self k None) = Ok (s, Some m))
      by (intros k Hk; apply Hall; right; exact Hk).
    destruct (fgt s bs).
    + rewrite result_bind. cbn [ret result snd]. apply IH, Hall'.
    + apply IH, Hall'.
Qed.

Lemma cv_select_result (lib : Library) (self : ModelSelector) :
  (3 <= length (sequences self))%nat ->
  (forall n, in_range self n ->
     exists s m, result (cv_state lib self n None) = Ok (s, Some m)) ->
  result (SelectorCV_select lib self) =
  Ok (snd (pick fgt
             (map (cv_candidate lib self)
                  (py_range (min_n_components self) (max_n_components self + 1)))
             neg_inf
             (if fit_fails lib 3 (random_state self) (X self) (lengths self)
              then None else Some (trained_model self 3)))).
Proof.
  intros Hlen Hall. unfold SelectorCV_select.
  rewrite result_bind, base_model_eq. cbn [result snd].
  change (Z.to_nat 3) with 3%nat.
  apply Nat.ltb_ge in Hlen. rewrite Hlen.
  apply cv_loop_result. intros n Hn. apply Hall, in_candidates, Hn.
Qed.

(** ** Ties *)

(** C8: in each searching strategy, when the state count [n1] reaches a
    score that no candidate beats and that beats the initial best, and no
    smaller state count reaches the same score, the model of [n1] is
    returned: a larger state count [n2] with a numerically identical score
    does not replace it, because the comparison is strict. *)
Theorem first_best_wins_ties (lib : Library) (self : ModelSelector) (n1 n2 : Z) :
  in_range self n1 -> in_range self n2 -> n1 < n2 ->
  (* SelectorBIC *)
  (forall s1 m1 s2 m2,
     result (bic_try lib self n1) = Ok (s1, m1) ->
     result (bic_try lib self n2) = Ok (s2, m2) ->
     feq s1 s2 = true ->
     flt s1 pos_inf = true ->
     (forall k s m, in_range self k ->
        result (bic_try lib self k) = Ok (s, m) -> flt s s1 = false) ->
     (forall k s m, in_range self k -> k < n1 ->
        result (bic_try lib self k) = Ok (s, m) -> feq s s1 = false) ->
     result (SelectorBIC_select lib self) = Ok (Some m1)) /\
  (* SelectorDIC *)
  (forall s1 m1 s2 m2,
     result (dic_try lib self n1) = Ok (s1, m1) ->
     result (dic_try lib self n2) = Ok (s2, m2) ->
     feq s1 s2 = true ->
     fgt s1 neg_inf = true ->
     (forall k s m, in_range self k ->
        result (dic_try lib self k) = Ok (s, m) -> fgt s s1 = false) ->
     (forall k s m, in_range self k -> k < n1 ->
        result (dic_try lib self k) = Ok (s, m) -> feq s s1 = false) ->
     result (SelectorDIC_select lib self) = Ok (Some m1)) /\
  (* SelectorCV, when every pass of its outer loop completes *)
  (forall s1 m1 s2 m2,
     (3 <= length (sequences self))%nat ->
     (forall k, in_range self k ->
        exists s m, result (cv_state lib self k None) = Ok (s, Some m)) ->
     result (cv_state lib self n1 None) = Ok (s1, Some m1) ->
     result (cv_state lib self n2 None) = Ok (s2, Some m2) ->
     feq s1 s2 = true ->
     fgt s1 neg_inf = true ->
     (forall k s m, in_range self k ->
        result (cv_state lib self k None) = Ok (s, Some m) -> fgt s s1 = false) ->
     (forall k s m, in_range self k -> k < n1 ->
        result (cv_state lib self k None) = Ok (s, Some m) -> feq s s1 = false) ->
     result (SelectorCV_select lib self) = Ok (Some m1)).
Proof.
  intros Hn1 Hn2 Hlt.
  assert (Hgt_tie : forall a b, fgt a neg_inf = true -> fgt b neg_inf = true ->
                      fgt a b = false -> fgt b a = false -> feq a b = true).
  { intros a b Ha Hb H1 H2.
    apply no_flt_feq; auto using fgt_neg_inf_not_nan. }
  assert (Hgt_tot : forall a b, fgt a neg_inf = true -> fgt b neg_inf = true ->
                      fle b a = false -> fgt b a = true).
  { intros a b Ha Hb H. apply not_fle_flt; auto using fgt_neg_inf_not_nan. }
  split; [| split].
  - intros s1 m1 s2 m2 H1 H2 Heq Hinf Hbest Hfirst.
    unfold SelectorBIC_select. rewrite bic_loop_result. do 2 f_equal.
    apply (pick_first_best flt fle feq pos_inf flt_irrefl flt_trans fle_flt_trans)
      with (n1 := n1) (s1 := s1).
    + intros a b Ha Hb. apply no_flt_feq; eauto using flt_not_nan_l.
    + intros a b Ha Hb. apply not_fle_flt; eauto using flt_not_nan_l.
    + unfold in_range in Hn1. lia.
    + apply bic_try_ok. exact H1.
    + exact Hinf.
    + intros k s m Hk Hc. apply (Hbest k s m); [unfold in_range; lia |].
      apply bic_try_ok. exact Hc.
    + intros k s m Hk Hc. unfold in_range in Hn1.
      apply (Hfirst k s m); [unfold in_range; lia | lia |].
      apply bic_try_ok. exact Hc.
  - intros s1 m1 s2 m2 H1 H2 Heq Hinf Hbest Hfirst.
    unfold SelectorDIC_select. rewrite dic_loop_result. do 2 f_equal.
    apply (pick_first_best fgt (fun a b => fle b a) feq neg_inf
                           (fun a => flt_irrefl a)
                           (fun a b c H1 H2 => flt_trans c b a H2 H1)
                           (fun a b c H1 H2 => flt_fle_trans c b a H2 H1)
                           Hgt_tie Hgt_tot)
      with (n1 := n1) (s1 := s1).
    + unfold in_range in Hn1. lia.
    + apply dic_try_ok. exact H1.
    + exact Hinf.
    + intros k s m Hk Hc. apply (Hbest k s m); [unfold in_range; lia |].
      apply dic_try_ok. exact Hc.
    + intros k s m Hk Hc. unfold in_range in Hn1.
      apply (Hfirst k s m); [unfold in_range; lia | lia |].
      apply dic_try_ok. exact Hc.
  - intros s1 m1 s2 m2 Hlen Hall H1 H2 Heq Hinf Hbest Hfirst.
    rewrite (cv_select_result lib self Hlen Hall). f_equal.
    rewrite pick_start.
    rewrite (pick_first_best fgt (fun a b => fle b a) feq neg_inf
                           (fun a => flt_irrefl a)
                           (fun a b c H1 H2 => flt_trans c b a H2 H1)
                           (fun a b c H1 H2 => flt_fle_trans c b a H2 H1)
                           Hgt_tie Hgt_tot (cv_candidate lib self) _ _ n1 s1 m1);
      [reflexivity | | | | |].
    + unfold in_range in Hn1. lia.
    + apply cv_candidate_some. exact H1.
    + exact Hinf.
    + intros k s m Hk Hc. apply (Hbest k s m); [unfold in_range; lia |].
      apply cv_candidate_some. exact Hc.
    + intros k s m Hk Hc. unfold in_range in Hn1.
      apply (Hfirst k s m); [unfold in_range; lia | lia |].
      apply cv_candidate_some. exact Hc.
Qed.

(** ** What SelectorCV asks of the fold splitter *)

Section CvTrace.

Variable lib : Library.
Variable self : ModelSelector.

Lemma ods_bind {A B : Type} (m : M A) (f : A -> M B) :
  only_default_splits lib self (trace m) ->
  (forall a, result m = Ok a -> only_default_splits lib self (trace (f a))) ->
  only_default_splits lib self (trace (bind m f)).
Proof.
  intros Hm Hf. rewrite trace_bind. apply Forall_app. split; [exact Hm |].
  destruct (result m) as [a | e]; [apply Hf; reflexivity | constructor].
Qed.

Lemma ods_try {A : Type} (m : M A) (h : exn -> M A) :
  only_default_splits lib self (trace m) ->
  (forall e, only_default_splits lib self (trace (h e))) ->
  only_default_splits lib self (trace (try_except m h)).
Proof.
  intros Hm Hh. rewrite trace_try. apply Forall_app. split; [exact Hm |].
  destruct (result m) as [a | e]; [constructor | apply Hh].
Qed.

Lemma ods_nil : only_default_splits lib self [].
Proof. constructor. Qed.

Lemma ods_base_model (n : Z) : only_default_splits lib self (trace (base_model lib self n)).
Proof. rewrite base_model_eq. repeat constructor. Qed.

Lemma ods_hmm_fit (n rs : Z) (x : matrix) (l : list nat) :
  only_default_splits lib self (trace (hmm_fit lib n rs x l)).
Proof.
  unfold hmm_fit. destruct (fit_fails lib n rs x l); repeat constructor.
Qed.

Lemma ods_hmm_score (m : GaussianHMM) (x : matrix) (l : list nat) :
  only_default_splits lib self (trace (hmm_score lib m x l)).
Proof.
  unfold hmm_score. destruct (hmm_loglik lib m x l); repeat constructor.
Qed.

Lemma combine_sequences_trace (idx : list nat) (seqs : list sequence) :
  trace (combine_sequences idx seqs) = [].
Proof.
  induction idx as [| i idx IH]; cbn [combine_sequences]; [reflexivity |].
  destruct (nth_error seqs i); [| reflexivity].
  rewrite trace_bind, IH.
  destruct (result (combine_sequences idx seqs)); reflexivity.
Qed.

Lemma ods_cv_fold (n : Z) (ss : list float) (fold : list nat * list nat) :
  only_default_splits lib self (trace (cv_fold lib self n ss fold)).
Proof.
  unfold cv_fold. destruct fold as [tr te].
  apply ods_bind; [apply ods_base_model | intros om _].
  apply ods_bind; [destruct om; apply ods_nil | intros m _].
  apply ods_bind; [rewrite combine_sequences_trace; apply ods_nil | intros xl _].
  apply ods_bind; [rewrite combine_sequences_trace; apply ods_nil | intros xl' _].
  apply ods_bind; [apply ods_hmm_fit | intros m' _].
  apply ods_bind.
  - apply ods_try; [| intros; apply ods_nil].
    apply ods_bind; [apply ods_hmm_score | intros; apply ods_nil].
  - intros [s |] _; apply ods_nil.
Qed.

Lemma ods_cv_folds (n : Z) (folds : list (list nat * list nat))
    (ss : list float) (mv : option GaussianHMM) :
  only_default_splits lib self (trace (cv_folds lib self n folds ss mv)).
Proof.
  revert ss mv. induction folds as [| fold folds IH]; intros ss mv; cbn [cv_folds].
  - apply ods_nil.
  - apply ods_bind; [apply ods_cv_fold | intros sm _; apply IH].
Qed.

Lemma ods_cv_state (n : Z) (mv : option GaussianHMM) :
  only_default_splits lib self (trace (cv_state lib self n mv)).
Proof.
  unfold cv_state. apply ods_bind.
  - unfold KFold_new. destruct (kfold_n_splits lib <=? 1)%nat; apply ods_nil.
  - intros k Hk.
    assert (k = kfold_n_splits lib) as ->.
    { unfold KFold_new in Hk.
      destruct (kfold_n_splits lib <=? 1)%nat; [discriminate |].
      injection Hk as <-. reflexivity. }
    apply ods_bind.
    + unfold KFold_split.
      destruct (length (sequences self) <? kfold_n_splits lib)%nat;
        repeat constructor.
    + intros folds _. apply ods_bind; [apply ods_cv_folds | intros sm _].
      apply ods_bind; [| intros; apply ods_nil].
      apply ods_try; [| intros; apply ods_nil].
      unfold statistics_mean. destruct (fst sm); apply ods_nil.
Qed.

Lemma ods_cv_loop (ns : list Z) (bs : float) (bm mv : option GaussianHMM) :
  only_default_splits lib self (trace (cv_loop lib self ns bs bm mv)).
Proof.
  revert bs bm mv. induction ns as [| n ns IH]; intros bs bm mv; cbn [cv_loop].
  - apply ods_nil.
  - apply ods_bind; [apply ods_cv_state | intros sm _].
    destruct (fgt (fst sm) bs); [| apply IH].
    apply ods_bind; [destruct (snd sm); apply ods_nil | intros; apply IH].
Qed.

Lemma ods_cv_select : only_default_splits lib self (trace (SelectorCV_select lib self)).
Proof.
  unfold SelectorCV_select.
  apply ods_bind; [apply ods_base_model | intros bm _].
  destruct (length (sequences self) <? Z.to_nat 3)%nat;
    [apply ods_nil | apply ods_cv_loop].
Qed.

End CvTrace.

Lemma cv_state_too_few (lib : Library) (self : ModelSelector) (n : Z)
    (mv : option GaussianHMM) :
  (2 <= kfold_n_splits lib)%nat ->
  (length (sequences self) < kfold_n_splits lib)%nat ->
  cv_state lib self n mv =
  ([EvSplit (kfold_n_splits lib) (length (sequences self))], Raise ValueError).
Proof.
  intros HK Hlt. unfold cv_state, KFold_new.
  assert (Hk1 : (kfold_n_splits lib <=? 1)%nat = false)
    by (apply Nat.leb_gt; lia).
  rewrite Hk1. cbn [ret bind]. unfold KFold_split.
  apply Nat.ltb_lt in Hlt. rewrite Hlt. reflexivity.
Qed.

(** X15: SelectorCV never adapts the fold count to the number of sequences.
    Every split it requests asks for the default fold count of [KFold] over
    all the sequences of the word; that split succeeds when the default does
    not exceed the number of sequences, and otherwise the first split raises
    ValueError outside any [try], which ends [select]. *)
Theorem cv_requests_default_folds (lib : Library) (self : ModelSelector) :
  (2 <= kfold_n_splits lib)%nat ->
  (3 <= length (sequences self))%nat ->
  only_default_splits lib self (trace (SelectorCV_select lib self)) /\
  ((kfold_n_splits lib <= length (sequences self))%nat ->
   exists folds,
     result (KFold_split (kfold_n_splits lib) (length (sequences self))) = Ok folds /\
     length folds = kfold_n_splits lib) /\
  ((length (sequences self) < kfold_n_splits lib)%nat ->
   min_n_components self <= max_n_components self ->
   SelectorCV_select lib self =
   ([EvFit 3 (random_state self) (X self) (lengths self);
     EvSplit (kfold_n_splits lib) (length (sequences self))],
    Raise ValueError)).
Proof.
  intros HK Hlen. split; [apply ods_cv_select |]. split.
  - intros Hle. unfold KFold_split.
    apply Nat.ltb_ge in Hle. rewrite Hle. cbn [emit bind ret result snd].
    eexists. split; [reflexivity |].
    rewrite kfold_folds_length, fold_sizes_length. reflexivity.
  - intros Hlt Hmm. unfold SelectorCV_select. rewrite base_model_eq.
    cbn [bind]. change (Z.to_nat 3) with 3%nat.
    apply Nat.ltb_ge in Hlen. rewrite Hlen.
    rewrite py_range_cons by lia. cbn [cv_loop].
    rewrite cv_state_too_few by lia. reflexivity.
Qed.

(** ** Failure isolation *)

(** SelectorConstant, SelectorBIC and SelectorDIC never raise: everything
    that can fail sits inside [base_model] or inside the [try] block of the
    loop. *)
Lemma constant_bic_dic_never_raise (lib : Library) (self : ModelSelector) :
  (exists r, result (select lib Constant self) = Ok r) /\
  (exists r, result (select lib BIC self) = Ok r) /\
  (exists r, result (select lib DIC self) = Ok r).
Proof.
  split; [| split]; cbn [select].
  - unfold SelectorConstant_select. rewrite base_model_eq. eexists; reflexivity.
  - unfold SelectorBIC_select. rewrite bic_loop_result. eexists; reflexivity.
  - unfold SelectorDIC_select. rewrite dic_loop_result. eexists; reflexivity.
Qed.

(** In SelectorCV a state count whose training fails on the full data ends
    the whole search with AssertionError: the assertion after [base_model]
    is outside any [try]. *)
Lemma cv_state_training_failure (lib : Library) (self : ModelSelector) (n : Z)
    (mv : option GaussianHMM) :
  (2 <= kfold_n_splits lib <= length (sequences self))%nat ->
  fit_fails lib n (random_state self) (X self) (lengths self) = true ->
  result (cv_state lib self n mv) = Raise AssertionError.
Proof.
  intros [HK Hle] Hfail. unfold cv_state, KFold_new.
  assert (Hk1 : (kfold_n_splits lib <=? 1)%nat = false)
    by (apply Nat.leb_gt; lia).
  rewrite Hk1, !result_bind. cbn [ret result snd].
  rewrite result_bind. unfold KFold_split.
  apply Nat.ltb_ge in Hle. rewrite Hle. cbn [emit bind ret result snd].
  pose proof (kfold_folds_length
                (fold_sizes (kfold_n_splits lib) (length (sequences self)))
                0 (length (sequences self))) as Hlen.
  rewrite fold_sizes_length in Hlen.
  destruct (kfold_folds _ 0 (length (sequences self))) as [| [tr te] folds];
    [simpl in Hlen; lia |].
  rewrite result_bind. cbn [cv_folds]. rewrite result_bind.
  unfold cv_fold. rewrite result_bind, base_model_eq, Hfail. reflexivity.
Qed.

(** C2, on the code: training fails for 4 states only, as in the
    specification's failure-isolation scenario, and the word has five
    sequences.  SelectorBIC and SelectorDIC skip the state count and return
    a model; SelectorCV raises AssertionError to its caller. *)
Theorem cv_training_failure_escapes :
  result (select lib_fail4 CV (corpus_selector five_sequences 3 5))
  = Raise AssertionError /\
  result (select lib_fail4 BIC (corpus_selector five_sequences 3 5))
  = Ok (Some (trained_model (corpus_selector five_sequences 3 5) 3)) /\
  result (select lib_fail4 DIC (corpus_selector five_sequences 3 5))
  = Ok (Some (trained_model (corpus_selector five_sequences 3 5) 3)).
Proof. repeat split; vm_compute; reflexivity. Qed.

(** ** The score of a state count without usable folds *)

Lemma pos_inf_beats_finite (s : float) : is_finite s = true -> fgt pos_inf s = true.
Proof. destruct s as [[] | [] | | [] m e]; try discriminate; reflexivity. Qed.

(** C3, on the code: the sentinel of a state count without usable folds is
    +inf, which exceeds every finite mean.  Here models with 2 states score
    -10 on every fold and models with 3 states cannot score any fold: the
    state count 3 gets +inf, beats the mean -10 of the state count 2, and
    the model returned has 3 states. *)
Theorem cv_no_fold_sentinel_wins :
  let self := corpus_selector five_sequences 2 3 in
  (forall s, is_finite s = true -> fgt pos_inf s = true) /\
  (exists m, result (cv_state lib_noscore3 self 2 None) = Ok (feat (-10), Some m)) /\
  (exists m, result (cv_state lib_noscore3 self 3 None) = Ok (pos_inf, Some m)) /\
  exists m, result (select lib_noscore3 CV self) = Ok (Some m) /\
            n_components m = 3.
Proof.
  cbv zeta. split; [exact pos_inf_beats_finite |].
  repeat split; try (eexists; vm_compute; reflexivity).
  eexists. split; vm_compute; reflexivity.
Qed.

(** ** The data the returned model was fitted on *)

(** The model a fold leaves behind is the one refitted on the training part
    of that fold. *)
Lemma cv_fold_model (lib : Library) (self : ModelSelector) (n : Z)
    (ss : list float) (tr te : list nat) (ss' : list float) (m : GaussianHMM) :
  result (cv_fold lib self n ss (tr, te)) = Ok (ss', m) ->
  exists xl, result (combine_sequences tr (sequences self)) = Ok xl /\
             m = mkHMM n (random_state self) (fst xl) (snd xl).
Proof.
  unfold cv_fold. rewrite result_bind, base_model_eq. cbn [result snd].
  destruct (fit_fails lib n (random_state self) (X self) (lengths self));
    [discriminate |].
  rewrite result_bind. cbn [assert_isinstance ret result snd].
  rewrite result_bind.
  destruct (result (combine_sequences tr (sequences self))) as [xl |];
    [| discriminate].
  rewrite result_bind.
  destruct (result (combine_sequences te (sequences self))) as [xl' |];
    [| discriminate].
  rewrite result_bind. unfold hmm_refit, hmm_fit, trained_model.
  cbn [n_components hmm_random_state].
  destruct (fit_fails lib n (random_state self) (fst xl) (snd xl));
    [discriminate |].
  cbn [emit bind ret result snd]. rewrite result_bind, result_try, result_bind.
  rewrite hmm_score_result.
  destruct (hmm_loglik lib _ (fst xl') (snd xl')); cbn [ret result snd];
    intros H; injection H as _ <-; exists xl; auto.
Qed.

Lemma cv_folds_last_model (lib : Library) (self : ModelSelector) (n : Z)
    (folds : list (list nat * list nat)) (ss : list float)
    (mv : option GaussianHMM) (ss' : list float) (m : GaussianHMM)
    (tr te : list nat) :
  result (cv_folds lib self n (folds ++ [(tr, te)]) ss mv) = Ok (ss', Some m) ->
  exists xl, result (combine_sequences tr (sequences self)) = Ok xl /\
             m = mkHMM n (random_state self) (fst xl) (snd xl).
Proof.
  revert ss mv. induction folds as [| fold folds IH]; intros ss mv;
    cbn [app cv_folds]; rewrite result_bind.
  - destruct (result (cv_fold lib self n ss (tr, te))) as [[ss1 m1] |] eqn:Hf;
      [| discriminate].
    cbn [ret result snd fst]. intros H. injection H as _ <-.
    eapply cv_fold_model. exact Hf.
  - destruct (result (cv_fold lib self n ss fold)) as [[ss1 m1] |];
      [apply IH | discriminate].
Qed.

(** C5, on the code: five sequences, one state count, training and scoring
    always succeed.  The model returned was last fitted on the training part
    of the last fold (the first four sequences), not on the word's full
    matrix of five rows. *)
Theorem cv_returns_fold_model :
  let self := corpus_selector five_sequences 2 2 in
  exists m,
    result (select lib_ok CV self) = Ok (Some m) /\
    fit_X m = concat four_sequences /\
    fit_lengths m = [1; 1; 1; 1]%nat /\
    fit_X m <> X self.
Proof.
  cbv zeta. eexists. split; [vm_compute; reflexivity |].
  split; [reflexivity |]. split; [reflexivity |].
  vm_compute. discriminate.
Qed.

(** C4, on the code: a word with four sequences passes the guard on the
    number of sequences, yet [KFold()] is built with its default and the
    split is asked for five folds of four sequences; it raises ValueError
    outside any [try], so [select] raises instead of completing the search.
    SelectorBIC returns a model on the same input. *)
Theorem cv_split_exceeds_sequences :
  let self := corpus_selector four_sequences 2 10 in
  (3 <= length (sequences self) < 5)%nat /\
  select lib_ok CV self =
  ([EvFit 3 14 (X self) (lengths self); EvSplit 5 4], Raise ValueError) /\
  exists m, result (select lib_ok BIC self) = Ok (Some m).
Proof.
  cbv zeta. split; [vm_compute; lia |].
  split; [vm_compute; reflexivity | eexists; vm_compute; reflexivity].
Qed.

(** ** The theorems at concrete inputs *)

Lemma in_range_cases (self : ModelSelector) (k : Z) (P : Z -> Prop) :
  in_range self k ->
  Forall P (py_range (min_n_components self) (max_n_components self + 1)) ->
  P k.
Proof.
  intros Hk HP. rewrite Forall_forall in HP. apply HP, in_candidates, Hk.
Defined.

Lemma init_missing_word_witness :
  ModelSelector_init (corpus_words five_sequences) (corpus_hwords five_sequences)
                     "Z" 3 2 10 14 false = Raise KeyError.
Proof.
  apply init_missing_word_raises. left. reflexivity.
Defined.

Lemma cv_fallback_witness :
  SelectorCV_select lib_ok (corpus_selector two_sequences 2 10) =
  ([EvFit 3 14 (concat two_sequences) [1; 1]%nat],
   Ok (Some (mkHMM 3 14 (concat two_sequences) [1; 1]%nat))).
Proof.
  apply (cv_fallback_below_three lib_ok (corpus_selector two_sequences 2 10)).
  simpl. lia.
Defined.

Lemma dic_single_label_witness :
  result (SelectorDIC_select lib_ok single_word_selector) = Ok None.
Proof.
  apply dic_single_label_none.
  - intros w [<- | []]. reflexivity.
  - reflexivity.
Defined.

Lemma cv_default_folds_witness :
  only_default_splits lib_ok (corpus_selector four_sequences 2 10)
    (trace (SelectorCV_select lib_ok (corpus_selector four_sequences 2 10))) /\
  SelectorCV_select lib_ok (corpus_selector four_sequences 2 10) =
  ([EvFit 3 14 (concat four_sequences) [1; 1; 1; 1]%nat; EvSplit 5 4],
   Raise ValueError) /\
  exists folds, result (KFold_split 5 5) = Ok folds /\ length folds = 5%nat.
Proof.
  destruct (cv_requests_default_folds lib_ok (corpus_selector four_sequences 2 10))
    as (H1 & _ & H3).
  - simpl. lia.
  - simpl. lia.
  - split; [exact H1 |]. split; [apply H3; simpl; lia |].
    destruct (cv_requests_default_folds lib_ok (corpus_selector five_sequences 2 10))
      as (_ & H2 & _).
    + simpl. lia.
    + simpl. lia.
    + apply H2. simpl. lia.
Defined.

Ltac by_candidates Hk :=
  match type of Hk with
  | in_range ?self ?k =>
    pattern k; apply (in_range_cases self k _ Hk);
    let l := eval vm_compute in
               (py_range (min_n_components self) (max_n_components self + 1)) in
    change (py_range (min_n_components self) (max_n_components self + 1)) with l;
    repeat constructor
  end.

Lemma bic_selects_minimum_witness :
  result (SelectorBIC_select lib_ok (corpus_selector five_sequences 2 4))
  = Ok (Some (trained_model (corpus_selector five_sequences 2 4) 2)) /\
  result (bic_try lib_scenario scenario_selector 2)
  = Ok (bic_formula lib_scenario scenario_selector 2 (feat (-100)),
        trained_model scenario_selector 2) /\
  exists n' logL',
    in_range scenario_selector n' /\
    trained lib_scenario scenario_selector n' logL' /\
    result (SelectorBIC_select lib_scenario scenario_selector)
    = Ok (Some (trained_model scenario_selector n')).
Proof.
  split; [| split].
  - destruct (bic_selects_minimum lib_ok (corpus_selector five_sequences 2 4))
      as (_ & _ & _ & H).
    apply (H (feat (-10))).
    + simpl. lia.
    + intros n _. split; reflexivity.
    + vm_compute. reflexivity.
    + vm_compute. reflexivity.
    + vm_compute. reflexivity.
    + vm_compute. reflexivity.
  - destruct (bic_selects_minimum lib_scenario scenario_selector) as (H & _).
    apply H. split; reflexivity.
  - destruct (bic_selects_minimum lib_scenario scenario_selector)
      as (_ & _ & H & _).
    destruct (H 2 (feat (-100))) as (n' & l' & Hn' & Ht' & Hr & _).
    + unfold in_range. simpl. lia.
    + split; reflexivity.
    + vm_compute. reflexivity.
    + exists n', l'. auto.
Defined.

Lemma dic_selects_maximum_witness :
  result (dic_try lib_ok (corpus_selector five_sequences 2 3) 2)
  = Ok (fsub (feat (-10)) (mean_ref [feat (-10)]),
        trained_model (corpus_selector five_sequences 2 3) 2) /\
  result (SelectorDIC_select lib_noscore3 (corpus_selector five_sequences 2 3))
  <> Ok (Some (trained_model (corpus_selector five_sequences 2 3) 3)) /\
  exists n',
    in_range (corpus_selector five_sequences 2 3) n' /\
    result (SelectorDIC_select lib_ok (corpus_selector five_sequences 2 3))
    = Ok (Some (trained_model (corpus_selector five_sequences 2 3) n')).
Proof.
  split; [| split].
  - destruct (dic_selects_maximum lib_ok (corpus_selector five_sequences 2 3))
      as (H & _).
    apply (H 2 (feat (-10)) [feat (-10)]).
    + split; reflexivity.
    + constructor; [| constructor].
      exists (seq1 9, [1%nat]). split; reflexivity.
  - destruct (dic_selects_maximum lib_noscore3 (corpus_selector five_sequences 2 3))
      as (_ & H & _).
    apply (H 3 "Y"%string (seq1 9, [1%nat])).
    + left. reflexivity.
    + reflexivity.
    + reflexivity.
  - destruct (dic_selects_maximum lib_ok (corpus_selector five_sequences 2 3))
      as (_ & _ & _ & H).
    destruct (H 2 (fsub (feat (-10)) (mean_ref [feat (-10)]))
                (trained_model (corpus_selector five_sequences 2 3) 2))
      as (n' & s' & Hn' & _ & Hr & _).
    + unfold in_range. simpl. lia.
    + vm_compute. reflexivity.
    + vm_compute. reflexivity.
    + exists n'. auto.
Defined.

Lemma first_best_wins_ties_witness :
  result (SelectorBIC_select lib_ok one_row_selector)
  = Ok (Some (trained_model one_row_selector 2)) /\
  result (SelectorDIC_select lib_ok (corpus_selector five_sequences 2 3))
  = Ok (Some (trained_model (corpus_selector five_sequences 2 3) 2)) /\
  result (SelectorCV_select lib_ok (corpus_selector five_sequences 2 3))
  = Ok (Some (mkHMM 2 14 (concat four_sequences) [1; 1; 1; 1]%nat)).
Proof.
  split; [| split].
  - destruct (first_best_wins_ties lib_ok one_row_selector 2 3) as (H & _).
    + unfold in_range. simpl. lia.
    + unfold in_range. simpl. lia.
    + lia.
    + apply (H (feat 20) _ (feat 20) (trained_model one_row_selector 3)).
      * vm_compute. reflexivity.
      * vm_compute. reflexivity.
      * vm_compute. reflexivity.
      * vm_compute. reflexivity.
      * intros k s m Hk. revert s m. by_candidates Hk;
          intros s m Hr; vm_compute in Hr; injection Hr as <- _; reflexivity.
      * intros k s m Hk Hlt. unfold in_range in Hk. simpl in Hk. lia.
  - destruct (first_best_wins_ties lib_ok (corpus_selector five_sequences 2 3) 2 3)
      as (_ & H & _).
    + unfold in_range. simpl. lia.
    + unfold in_range. simpl. lia.
    + lia.
    + apply (H (S754_zero false) _ (S754_zero false)
               (trained_model (corpus_selector five_sequences 2 3) 3)).
      * vm_compute. reflexivity.
      * vm_compute. reflexivity.
      * vm_compute. reflexivity.
      * vm_compute. reflexivity.
      * intros k s m Hk. revert s m. by_candidates Hk;
          intros s m Hr; vm_compute in Hr; injection Hr as <- _; reflexivity.
      * intros k s m Hk Hlt. unfold in_range in Hk. simpl in Hk. lia.
  - destruct (first_best_wins_ties lib_ok (corpus_selector five_sequences 2 3) 2 3)
      as (_ & _ & H).
    + unfold in_range. simpl. lia.
    + unfold in_range. simpl. lia.
    + lia.
    + apply (H (feat (-10)) _ (feat (-10))
               (mkHMM 3 14 (concat four_sequences) [1; 1; 1; 1]%nat)).
      * simpl. lia.
      * intros k Hk. by_candidates Hk; eexists; eexists; vm_compute; reflexivity.
      * vm_compute. reflexivity.
      * vm_compute. reflexivity.
      * vm_compute. reflexivity.
      * vm_compute. reflexivity.
      * intros k s m Hk. revert s m. by_candidates Hk;
          intros s m Hr; vm_compute in Hr; injection Hr as <- _; reflexivity.
      * intros k s m Hk Hlt. unfold in_range in Hk. simpl in Hk. lia.
Defined.

(* ================================================================== *)
(** * Part III: further properties of the selectors *)
(* ================================================================== *)

(** ** The external calls of SelectorBIC and SelectorDIC *)

Lemma bic_guard_trace (lib : Library) (self : ModelSelector) (n : Z) :
  trace (try_except (sm <- bic_try lib self n ;; ret (Some sm))
                    (fun _ => ret None)) = bic_calls lib self n.
Proof.
  unfold bic_try, bic_calls. destruct (shape (X self)) as [N Mc].
  rewrite base_model_eq.
  destruct (fit_fails lib n (random_state self) (X self) (lengths self));
    [reflexivity |].
  cbn [bind assert_isinstance ret app]. unfold hmm_score.
  destruct (hmm_loglik lib (trained_model self n) (X self) (lengths self));
    reflexivity.
Qed.

Lemma bic_loop_trace (lib : Library) (self : ModelSelector) (ns : list Z)
    (bs : float) (bm : option GaussianHMM) :
  trace (bic_loop lib self ns bs bm) = flat_map (bic_calls lib self) ns.
Proof.
  revert bs bm. induction ns as [| n ns IH]; intros bs bm.
  - reflexivity.
  - cbn [bic_loop flat_map]. rewrite trace_bind, bic_guard_trace, bic_guard_result.
    f_equal. destruct (bic_candidate lib self n) as [[s m] |]; [| apply IH].
    destruct (flt s bs); apply IH.
Qed.

Lemma fits_app (t1 t2 : list event) : fits (t1 ++ t2) = fits t1 ++ fits t2.
Proof. apply filter_app. Qed.

Lemma fits_bic_calls (lib : Library) (self : ModelSelector) (n : Z) :
  fits (bic_calls lib self n) = [EvFit n (random_state self) (X self) (lengths self)].
Proof.
  unfold bic_calls.
  destruct (fit_fails lib n (random_state self) (X self) (lengths self));
    reflexivity.
Qed.

Lemma fits_flat_map (self : ModelSelector) (calls : Z -> list event) (ns : list Z) :
  (forall n, fits (calls n) = [EvFit n (random_state self) (X self) (lengths self)]) ->
  fits (flat_map calls ns) =
  map (fun n => EvFit n (random_state self) (X self) (lengths self)) ns.
Proof.
  intros H. induction ns as [| n ns IH]; [reflexivity |].
  cbn [flat_map map]. rewrite fits_app, H, IH. reflexivity.
Qed.

(** X1: SelectorBIC makes, for each state count of the range in ascending
    order, one training call on the word's full data and, exactly when that
    training succeeded, one scoring call on the same data; it makes no other
    external call, and a failure never stops the later state counts.  In
    particular its training calls are one per state count, whatever fails. *)
Theorem bic_call_trace (lib : Library) (self : ModelSelector) :
  trace (SelectorBIC_select lib self) =
  flat_map (bic_calls lib self)
           (py_range (min_n_components self) (max_n_components self + 1)) /\
  fits (trace (SelectorBIC_select lib self)) =
  map (fun n => EvFit n (random_state self) (X self) (lengths self))
      (py_range (min_n_components self) (max_n_components self + 1)).
Proof.
  unfold SelectorBIC_select. rewrite bic_loop_trace. split; [reflexivity |].
  apply fits_flat_map. apply fits_bic_calls.
Qed.

(** ** The external calls of SelectorDIC *)

Lemma dic_others_trace (lib : Library) (self : ModelSelector)
    (model : GaussianHMM) (ws : list string) :
  trace (dic_others lib self model ws) = other_calls lib self model ws.
Proof.
  induction ws as [| w ws IH]; cbn [dic_others other_calls]; [reflexivity |].
  destruct (String.eqb w (this_word self)); [exact IH |].
  destruct (dict_get (hwords self) w) as [xl |]; [| reflexivity].
  rewrite trace_bind. cbn [ret trace result fst snd app].
  rewrite trace_bind, hmm_score_result. unfold hmm_score at 1.
  destruct (hmm_loglik lib model (fst xl) (snd xl)); cbn [emit bind ret raise trace fst app];
    [| reflexivity].
  f_equal. rewrite trace_bind, IH.
  destruct (result (dic_others lib self model ws)); cbn [ret trace fst];
    apply app_nil_r.
Qed.

Lemma dic_guard_trace (lib : Library) (self : ModelSelector) (n : Z) :
  trace (try_except (sm <- dic_try lib self n ;; ret (Some sm))
                    (fun _ => ret None)) = dic_calls lib self n.
Proof.
  rewrite trace_try, trace_bind.
  assert (Hnil : forall r : outcome (float * GaussianHMM),
             match r with Ok a => trace (ret (Some a)) | Raise _ => [] end ++
             match (match r with
                    | Ok a => result (ret (Some a))
                    | Raise e => Raise e
                    end : outcome (option (float * GaussianHMM))) with
             | Ok _ => []
             | Raise e => trace (ret (@None (float * GaussianHMM)))
             end = []) by (intros [a | e]; reflexivity).
  rewrite result_bind, <- app_assoc, Hnil, app_nil_r.
  unfold dic_try, dic_calls. rewrite trace_bind, base_model_eq.
  cbn [trace result fst snd app]. f_equal.
  destruct (fit_fails lib n (random_state self) (X self) (lengths self));
    [reflexivity |].
  rewrite trace_bind. cbn [assert_isinstance ret trace result fst snd app].
  rewrite trace_bind, hmm_score_result. unfold hmm_score at 1.
  destruct (hmm_loglik lib (trained_model self n) (X self) (lengths self));
    cbn [emit bind ret raise trace fst app]; [| reflexivity].
  f_equal. rewrite trace_bind, dic_others_trace.
  destruct (result (dic_others lib self _ _)); cbn [ret trace fst];
    apply app_nil_r.
Qed.

Lemma dic_loop_trace (lib : Library) (self : ModelSelector) (ns : list Z)
    (bs : float) (bm : option GaussianHMM) :
  trace (dic_loop lib self ns bs bm) = flat_map (dic_calls lib self) ns.
Proof.
  revert bs bm. induction ns as [| n ns IH]; intros bs bm.
  - reflexivity.
  - cbn [dic_loop flat_map]. rewrite trace_bind, dic_guard_trace, dic_guard_result.
    f_equal. destruct (dic_candidate lib self n) as [[s m] |]; [| apply IH].
    destruct (fgt s bs); apply IH.
Qed.

Lemma fits_other_calls (lib : Library) (self : ModelSelector)
    (model : GaussianHMM) (ws : list string) :
  fits (other_calls lib self model ws) = [].
Proof.
  induction ws as [| w ws IH]; cbn [other_calls]; [reflexivity |].
  destruct (String.eqb w (this_word self)); [exact IH |].
  destruct (dict_get (hwords self) w) as [xl |]; [| reflexivity].
  cbn [fits filter is_fit].
  destruct (hmm_loglik lib model (fst xl) (snd xl)); [exact IH | reflexivity].
Qed.

Lemma fits_dic_calls (lib : Library) (self : ModelSelector) (n : Z) :
  fits (dic_calls lib self n) = [EvFit n (random_state self) (X self) (lengths self)].
Proof.
  unfold dic_calls. cbn [fits filter is_fit]. f_equal.
  destruct (fit_fails lib n (random_state self) (X self) (lengths self));
    [reflexivity |].
  cbn [filter is_fit].
  destruct (hmm_loglik lib (trained_model self n) (X self) (lengths self));
    [apply fits_other_calls | reflexivity].
Qed.

Lemma other_calls_ok (lib : Library) (self : ModelSelector) (n : Z)
    (ws : list string) :
  in_range self n ->
  (forall w, In w ws -> In w (dict_keys (words self))) ->
  Forall (dic_score_call self) (other_calls lib self (trained_model self n) ws).
Proof.
  intros Hn. induction ws as [| w ws IH]; intros Hws; cbn [other_calls];
    [constructor |].
  assert (Hws' : forall w', In w' ws -> In w' (dict_keys (words self)))
    by (intros w' Hw'; apply Hws; right; exact Hw').
  destruct (String.eqb w (this_word self)) eqn:Hw; [apply IH, Hws' |].
  destruct (dict_get (hwords self) w) as [[x l] |] eqn:Hxl; [| constructor].
  constructor.
  - cbn [dic_score_call fst snd]. split; [exists n; auto |].
    right. exists w. split; [| exact Hxl].
    unfold other_words. apply filter_In. split.
    + apply Hws. left. reflexivity.
    + rewrite Hw. reflexivity.
  - destruct (hmm_loglik lib (trained_model self n) (fst (x, l)) (snd (x, l)));
      [apply IH, Hws' | constructor].
Qed.

Lemma dic_calls_ok (lib : Library) (self : ModelSelector) (n : Z) :
  in_range self n -> Forall (dic_score_call self) (dic_calls lib self n).
Proof.
  intros Hn. unfold dic_calls. constructor; [exact I |].
  destruct (fit_fails lib n (random_state self) (X self) (lengths self));
    [constructor |].
  constructor.
  - cbn [dic_score_call]. split; [exists n; auto | left; reflexivity].
  - destruct (hmm_loglik lib (trained_model self n) (X self) (lengths self));
      [| constructor].
    apply other_calls_ok; auto.
Qed.

(** X2: SelectorDIC trains once per state count of the range, in ascending
    order, on the word's full data, whatever fails; every model it scores is
    one of these, scored on the word's own data or on the pre-combined data
    that [hwords] holds for another word of [words]; it never asks for a
    fold split. *)
Theorem dic_call_trace (lib : Library) (self : ModelSelector) :
  fits (trace (SelectorDIC_select lib self)) =
  map (fun n => EvFit n (random_state self) (X self) (lengths self))
      (py_range (min_n_components self) (max_n_components self + 1)) /\
  Forall (dic_score_call self) (trace (SelectorDIC_select lib self)).
Proof.
  unfold SelectorDIC_select. rewrite dic_loop_trace. split.
  - apply fits_flat_map. apply fits_dic_calls.
  - apply Forall_flat_map. apply Forall_forall. intros n Hn.
    apply dic_calls_ok, in_candidates, Hn.
Qed.

(** ** What the searches can return *)

Lemma pick_range_sound {T : Type} (better weak : float -> float -> bool) :
  (forall a, better a a = false) ->
  (forall a b c, better a b = true -> better b c = true -> better a c = true) ->
  (forall a b c, weak a b = true -> better b c = true -> better a c = true) ->
  forall (f : Z -> option (float * T)) (init : float) (a b : Z),
    match snd (pick better (map f (py_range a b)) init None) with
    | Some m => exists n s, a <= n < b /\ f n = Some (s, m) /\ better s init = true
    | None => forall n s m, a <= n < b -> f n = Some (s, m) -> better s init = false
    end.
Proof.
  intros Hirr Htr Hwtr f init a b.
  pose proof (pick_spec better weak Hirr Htr Hwtr f init (py_range a b)) as Hspec.
  destruct (pick better (map f (py_range a b)) init None) as [bs bm].
  unfold pick_inv in Hspec. cbn [fst snd] in *. destruct bm as [m |].
  - destruct Hspec as (pre & n & post & Hsplit & Hn & Hi & _).
    destruct (py_range_split _ _ _ _ _ Hsplit) as [Hr _]. eauto.
  - destruct Hspec as [_ Hall]. intros n s m Hn. apply Hall, in_py_range, Hn.
Qed.

Lemma bic_result_from (lib : Library) (self : ModelSelector) :
  match result (SelectorBIC_select lib self) with
  | Ok (Some m) =>
    exists n s, in_range self n /\ m = trained_model self n /\
                result (bic_try lib self n) = Ok (s, m) /\ flt s pos_inf = true
  | Ok None =>
    forall n s m, in_range self n ->
      result (bic_try lib self n) = Ok (s, m) -> flt s pos_inf = false
  | Raise _ => False
  end.
Proof.
  unfold SelectorBIC_select. rewrite bic_loop_result.
  pose proof (pick_range_sound flt fle flt_irrefl flt_trans fle_flt_trans
                (bic_candidate lib self) pos_inf
                (min_n_components self) (max_n_components self + 1)) as H.
  destruct (snd (pick flt _ pos_inf None)) as [m |].
  - destruct H as (n & s & Hn & Hc & Hs). exists n, s.
    split; [unfold in_range; lia |].
    pose proof (proj1 (bic_candidate_some lib self n s m) Hc) as (l & _ & _ & Hm).
    split; [exact Hm |]. split; [apply bic_try_ok; exact Hc | exact Hs].
  - intros n s m Hn Hc. apply (H n s m); [unfold in_range in Hn; lia |].
    apply bic_try_ok. exact Hc.
Qed.

Lemma dic_result_from (lib : Library) (self : ModelSelector) :
  match result (SelectorDIC_select lib self) with
  | Ok (Some m) =>
    exists n s, in_range self n /\ m = trained_model self n /\
                result (dic_try lib self n) = Ok (s, m) /\ fgt s neg_inf = true
  | Ok None =>
    forall n s m, in_range self n ->
      result (dic_try lib self n) = Ok (s, m) -> fgt s neg_inf = false
  | Raise _ => False
  end.
Proof.
  unfold SelectorDIC_select. rewrite dic_loop_result.
  pose proof (pick_range_sound fgt (fun a b => fle b a)
                (fun a => flt_irrefl a)
                (fun a b c H1 H2 => flt_trans c b a H2 H1)
                (fun a b c H1 H2 => flt_fle_trans c b a H2 H1)
                (dic_candidate lib self) neg_inf
                (min_n_components self) (max_n_components self + 1)) as H.
  destruct (snd (pick fgt _ neg_inf None)) as [m |].
  - destruct H as (n & s & Hn & Hc & Hs). exists n, s.
    split; [unfold in_range; lia |].
    pose proof (proj1 (dic_candidate_some lib self n s m) Hc)
      as (l & o & _ & _ & _ & Hm).
    split; [exact Hm |]. split; [apply dic_try_ok; exact Hc | exact Hs].
  - intros n s m Hn Hc. apply (H n s m); [unfold in_range in Hn; lia |].
    apply dic_try_ok. exact Hc.
Qed.

(** X3: a model returned by SelectorBIC is the one [base_model] trained on
    the word's full data for a state count of the range whose training and
    scoring succeeded with a score below +inf; and when no state count of
    the range has such a score (in particular when every training or scoring
    fails) the result is None. *)
Theorem bic_result_sound (lib : Library) (self : ModelSelector) :
  (forall m,
     result (SelectorBIC_select lib self) = Ok (Some m) ->
     exists n s, in_range self n /\ m = trained_model self n /\
                 result (bic_try lib self n) = Ok (s, m) /\ flt s pos_inf = true) /\
  ((forall n s m, in_range self n ->
      result (bic_try lib self n) = Ok (s, m) -> flt s pos_inf = false) ->
   result (SelectorBIC_select lib self) = Ok None).
Proof.
  pose proof (bic_result_from lib self) as H.
  destruct (result (SelectorBIC_select lib self)) as [[m' |] | e]; [| | contradiction].
  - split.
    + intros m Hm. injection Hm as <-. exact H.
    + intros Hall. destruct H as (n & s & Hn & _ & Hc & Hs).
      rewrite (Hall n s m' Hn Hc) in Hs. discriminate.
  - split; [discriminate | reflexivity].
Qed.

(** X4: a model returned by SelectorDIC is the one [base_model] trained on
    the word's full data for a state count of the range whose training and
    scorings all succeeded with a score above -inf; and when no state count
    of the range has such a score the result is None. *)
Theorem dic_result_sound (lib : Library) (self : ModelSelector) :
  (forall m,
     result (SelectorDIC_select lib self) = Ok (Some m) ->
     exists n s, in_range self n /\ m = trained_model self n /\
                 result (dic_try lib self n) = Ok (s, m) /\ fgt s neg_inf = true) /\
  ((forall n s m, in_range self n ->
      result (dic_try lib self n) = Ok (s, m) -> fgt s neg_inf = false) ->
   result (SelectorDIC_select lib self) = Ok None).
Proof.
  pose proof (dic_result_from lib self) as H.
  destruct (result (SelectorDIC_select lib self)) as [[m' |] | e]; [| | contradiction].
  - split.
    + intros m Hm. injection Hm as <-. exact H.
    + intros Hall. destruct H as (n & s & Hn & _ & Hc & Hs).
      rewrite (Hall n s m' Hn Hc) in Hs. discriminate.
  - split; [discriminate | reflexivity].
Qed.

(** ** Log-likelihoods that can never win *)

Lemma bic_formula_degenerate (lib : Library) (self : ModelSelector) (n : Z)
    (logL : float) :
  logL = nan \/ logL = neg_inf ->
  flt (bic_formula lib self n logL) pos_inf = false.
Proof.
  unfold bic_formula. cbv zeta.
  set (t := fmul (float_of_Z (n ^ 2 + 2 * n * snd (shape (X self)) - 1))
                 (np_log lib (fst (shape (X self))))).
  intros [-> | ->].
  - reflexivity.
  - change (fmul (float_of_Z (-2)) neg_inf) with pos_inf.
    destruct t as [[] | [] | | [] m e]; reflexivity.
Qed.

Lemma dic_score_degenerate (logL mean : float) :
  logL = nan \/ logL = neg_inf -> fgt (fsub logL mean) neg_inf = false.
Proof.
  intros [-> | ->]; destruct mean as [[] | [] | | [] m e]; reflexivity.
Qed.

(** X5: a state count whose model scores NaN or -inf on the word's own data
    is never the one SelectorBIC or SelectorDIC returns: its BIC score is
    not below the initial +inf and its DIC score is not above the initial
    -inf. *)
Theorem degenerate_loglik_never_selected (lib : Library) (self : ModelSelector)
    (n : Z) (logL : float) :
  hmm_loglik lib (trained_model self n) (X self) (lengths self) = Some logL ->
  logL = nan \/ logL = neg_inf ->
  result (SelectorBIC_select lib self) <> Ok (Some (trained_model self n)) /\
  result (SelectorDIC_select lib self) <> Ok (Some (trained_model self n)).
Proof.
  intros HL Hdeg. split; intros Hres.
  - pose proof (bic_result_from lib self) as H. rewrite Hres in H.
    destruct H as (n' & s & _ & Hm & Hc & Hs).
    apply trained_model_inj in Hm. subst n'.
    apply bic_try_formula in Hc. destruct Hc as (l & [_ Hl] & -> & _).
    assert (l = logL) by congruence. subst l.
    rewrite (bic_formula_degenerate lib self n logL Hdeg) in Hs. discriminate.
  - pose proof (dic_result_from lib self) as H. rewrite Hres in H.
    destruct H as (n' & s & _ & Hm & Hc & Hs).
    apply trained_model_inj in Hm. subst n'.
    apply dic_try_ok, dic_candidate_some in Hc.
    destruct Hc as (l & o & [_ Hl] & _ & -> & _).
    assert (l = logL) by congruence. subst l.
    rewrite (dic_score_degenerate logL _ Hdeg) in Hs. discriminate.
Qed.

(** ** Edge cases of the search range and of the corpus *)

(** X6: with an empty range of state counts ([max_n_components] below
    [min_n_components]) SelectorBIC and SelectorDIC return None without a
    single external call, and SelectorCV (given at least 3 sequences)
    returns what [base_model] gave for 3 states after that one training
    call, without any fold split. *)
Theorem empty_range_results (lib : Library) (self : ModelSelector) :
  max_n_components self < min_n_components self ->
  SelectorBIC_select lib self = ([], Ok None) /\
  SelectorDIC_select lib self = ([], Ok None) /\
  ((3 <= length (sequences self))%nat ->
   SelectorCV_select lib self =
   ([EvFit 3 (random_state self) (X self) (lengths self)],
    Ok (if fit_fails lib 3 (random_state self) (X self) (lengths self)
        then None else Some (trained_model self 3)))).
Proof.
  intros Hlt.
  assert (Hnil : py_range (min_n_components self) (max_n_components self + 1) = [])
    by (apply py_range_nil; lia).
  unfold SelectorBIC_select, SelectorDIC_select, SelectorCV_select.
  rewrite Hnil. split; [reflexivity |]. split; [reflexivity |].
  intros Hlen. rewrite base_model_eq. cbn [bind].
  change (Z.to_nat 3) with 3%nat. apply Nat.ltb_ge in Hlen. rewrite Hlen.
  cbn [cv_loop ret]. rewrite app_nil_r. reflexivity.
Qed.

Lemma other_scores_missing (lib : Library) (self : ModelSelector)
    (model : GaussianHMM) (w : string) :
  In w (other_words self) ->
  dict_get (hwords self) w = None ->
  other_scores lib self model (dict_keys (words self)) = None.
Proof.
  intros Hin Hnone.
  destruct (other_scores lib self model (dict_keys (words self))) as [l |] eqn:Ho;
    [| reflexivity].
  apply other_scores_spec in Ho. fold (other_words self) in Ho.
  destruct (Forall2_In_l _ _ _ _ Ho Hin) as (s & xl & Hxl & _). congruence.
Qed.

(** X7: when [words] holds a word other than the target that is not a key
    of [hwords], the KeyError of the lookup is swallowed by the [try] of
    every state count: SelectorDIC returns None, without raising, whatever
    the trainer and the scorer do. *)
Theorem dic_missing_hwords_none (lib : Library) (self : ModelSelector) (w : string) :
  In w (other_words self) ->
  dict_get (hwords self) w = None ->
  result (SelectorDIC_select lib self) = Ok None.
Proof.
  intros Hin Hnone. unfold SelectorDIC_select.
  rewrite dic_loop_result, pick_none_stays; [reflexivity |].
  intros s m Hc. apply in_map_iff in Hc. destruct Hc as (n & Hc & _).
  unfold dic_candidate in Hc.
  rewrite (other_scores_missing lib self _ w Hin Hnone) in Hc.
  destruct (fit_fails lib n _ _ _); [discriminate |].
  destruct (hmm_loglik lib (trained_model self n) (X self) (lengths self));
    discriminate.
Qed.

(** ** SelectorCV: the initial model, the sentinel, and exceptions *)

(** X8: with at least 3 sequences, when every pass of the outer loop
    completes and no pass reaches a score above the initial -inf (means that
    are -inf or NaN), SelectorCV returns what [base_model] gave for 3 states
    on the full data, a model whose state count need not lie in the search
    range. *)
Theorem cv_keeps_initial_model (lib : Library) (self : ModelSelector) :
  (3 <= length (sequences self))%nat ->
  (forall n, in_range self n ->
     exists s m, result (cv_state lib self n None) = Ok (s, Some m)) ->
  (forall n s m, in_range self n ->
     result (cv_state lib self n None) = Ok (s, Some m) -> fgt s neg_inf = false) ->
  result (SelectorCV_select lib self) =
  Ok (if fit_fails lib 3 (random_state self) (X self) (lengths self)
      then None else Some (trained_model self 3)).
Proof.
  intros Hlen Hall Hlow. rewrite (cv_select_result lib self Hlen Hall).
  rewrite pick_none_stays; [reflexivity |].
  intros s m Hc. apply in_map_iff in Hc. destruct Hc as (n & Hc & Hn).
  apply cv_candidate_some in Hc. apply (Hlow n s m); [| exact Hc].
  apply in_candidates. exact Hn.
Qed.

Lemma cv_fold_no_score (lib : Library) (self : ModelSelector) (n : Z)
    (ss : list float) (fold : list nat * list nat) (ss' : list float)
    (m : GaussianHMM) :
  (forall hm x l, n_components hm = n -> hmm_loglik lib hm x l = None) ->
  result (cv_fold lib self n ss fold) = Ok (ss', m) -> ss' = ss.
Proof.
  intros Hno. unfold cv_fold. destruct fold as [tr te].
  rewrite result_bind, base_model_eq. cbn [result snd].
  destruct (fit_fails lib n (random_state self) (X self) (lengths self));
    [discriminate |].
  rewrite result_bind. cbn [assert_isinstance ret result snd].
  rewrite result_bind.
  destruct (result (combine_sequences tr (sequences self))) as [xl |];
    [| discriminate].
  rewrite result_bind.
  destruct (result (combine_sequences te (sequences self))) as [xl' |];
    [| discriminate].
  rewrite result_bind. unfold hmm_refit, hmm_fit, trained_model.
  cbn [n_components hmm_random_state].
  destruct (fit_fails lib n (random_state self) (fst xl) (snd xl));
    [discriminate |].
  cbn [emit bind ret result snd]. rewrite result_bind, result_try, result_bind.
  rewrite hmm_score_result, Hno by reflexivity.
  cbn [ret result snd]. intros H. injection H as <- _. reflexivity.
Qed.

Lemma cv_folds_no_score (lib : Library) (self : ModelSelector) (n : Z)
    (folds : list (list nat * list nat)) (ss : list float)
    (mv : option GaussianHMM) r :
  (forall hm x l, n_components hm = n -> hmm_loglik lib hm x l = None) ->
  result (cv_folds lib self n folds ss mv) = Ok r -> fst r = ss.
Proof.
  intros Hno. revert ss mv.
  induction folds as [| fold folds IH]; intros ss mv; cbn [cv_folds].
  - intros H. injection H as <-. reflexivity.
  - rewrite result_bind.
    destruct (result (cv_fold lib self n ss fold)) as [[ss1 m1] |] eqn:Hf;
      [| discriminate].
    apply (cv_fold_no_score lib self n ss fold ss1 m1 Hno) in Hf. subst ss1.
    apply IH.
Qed.

(** X9: when no model with [n] states can score anything, a pass of the
    outer loop of SelectorCV for [n] that completes has collected no fold
    score and carries the score +inf, which exceeds every finite running
    best. *)
Theorem cv_unscorable_pass_is_pos_inf (lib : Library) (self : ModelSelector)
    (n : Z) (mv : option GaussianHMM) (s : float) (r : option GaussianHMM) :
  (forall hm x l, n_components hm = n -> hmm_loglik lib hm x l = None) ->
  result (cv_state lib self n mv) = Ok (s, r) ->
  s = pos_inf /\ forall best, is_finite best = true -> fgt s best = true.
Proof.
  intros Hno Hres.
  assert (Hs : s = pos_inf).
  { unfold cv_state in Hres. rewrite result_bind in Hres.
    destruct (result (KFold_new lib)) as [kf |]; [| discriminate].
    rewrite result_bind in Hres.
    destruct (result (KFold_split kf (length (sequences self)))) as [folds |];
      [| discriminate].
    rewrite result_bind in Hres.
    destruct (result (cv_folds lib self n folds [] mv)) as [sm |] eqn:Hf;
      [| discriminate].
    apply (cv_folds_no_score lib self n folds [] mv sm Hno) in Hf.
    rewrite result_bind, result_try, Hf in Hres.
    cbn [statistics_mean raise ret result snd] in Hres.
    injection Hres as <- _. reflexivity. }
  split; [exact Hs |]. subst s. exact pos_inf_beats_finite.
Qed.

Lemma seq_offset (a : Z) (k len : nat) :
  map (fun i => a + Z.of_nat i) (seq k len) =
  map (fun i => a + Z.of_nat k + Z.of_nat i) (seq 0 len).
Proof.
  revert a k. induction len as [| len IH]; intros a k; [reflexivity |].
  cbn [seq map]. f_equal; [lia |].
  rewrite (IH a (S k)), (IH (a + Z.of_nat k) 1%nat).
  apply map_ext. intros i. lia.
Qed.

Lemma py_range_app (a n b : Z) :
  a <= n <= b -> py_range a b = py_range a n ++ py_range n b.
Proof.
  intros H. unfold py_range.
  replace (Z.to_nat (b - a)) with (Z.to_nat (n - a) + Z.to_nat (b - n))%nat by lia.
  rewrite seq_app, map_app. f_equal. cbn [Nat.add].
  rewrite seq_offset. apply map_ext. intros i. lia.
Qed.

Lemma cv_loop_raises (lib : Library) (self : ModelSelector)
    (pre : list Z) (n : Z) (post : list Z) (e : exn)
    (bs : float) (bm mv : option GaussianHMM) :
  (forall k, In k pre ->
     exists s m, result (cv_state lib self k None) = Ok (s, Some m)) ->
  result (cv_state lib self n None) = Raise e ->
  result (cv_loop lib self (pre ++ n :: post) bs bm mv) = Raise e.
Proof.
  intros Hpre Hn. revert bs bm mv.
  induction pre as [| k pre IH]; intros bs bm mv; cbn [app cv_loop];
    rewrite result_bind, (proj1 (cv_state_model lib self _ mv)).
  - rewrite Hn. reflexivity.
  - destruct (Hpre k (or_introl eq_refl)) as (s & m & Hk). rewrite Hk.
    cbn [fst snd].
    assert (Hpre' : forall k', In k' pre ->
              exists s m, result (cv_state lib self k' None) = Ok (s, Some m))
      by (intros k' Hk'; apply Hpre; right; exact Hk').
    destruct (fgt s bs).
    + rewrite result_bind. cbn [ret result snd]. apply IH, Hpre'.
    + apply IH, Hpre'.
Qed.

(** X10: in SelectorCV (at least 3 sequences) the first pass of the outer
    loop that raises ends [select] with that very exception, whatever the
    later state counts would give; in particular a state count whose
    training on the full data fails ends it with AssertionError. *)
Theorem cv_first_exception_escapes (lib : Library) (self : ModelSelector) (n : Z) :
  (3 <= length (sequences self))%nat ->
  in_range self n ->
  (forall k, min_n_components self <= k < n ->
     exists s m, result (cv_state lib self k None) = Ok (s, Some m)) ->
  (forall e, result (cv_state lib self n None) = Raise e ->
             result (SelectorCV_select lib self) = Raise e) /\
  ((2 <= kfold_n_splits lib <= length (sequences self))%nat ->
   fit_fails lib n (random_state self) (X self) (lengths self) = true ->
   result (SelectorCV_select lib self) = Raise AssertionError).
Proof.
  intros Hlen Hn Hpre.
  assert (Hgen : forall e, result (cv_state lib self n None) = Raise e ->
                           result (SelectorCV_select lib self) = Raise e).
  { intros e He. unfold SelectorCV_select.
    rewrite result_bind, base_model_eq. cbn [result snd].
    change (Z.to_nat 3) with 3%nat. apply Nat.ltb_ge in Hlen. rewrite Hlen.
    unfold in_range in Hn.
    rewrite (py_range_app (min_n_components self) n) by lia.
    rewrite (py_range_cons n) by lia.
    apply cv_loop_raises; [| exact He].
    intros k Hk. apply in_py_range in Hk. apply Hpre. exact Hk. }
  split; [exact Hgen |].
  intros HK Hfail. apply Hgen. apply cv_state_training_failure; assumption.
Qed.

(** ** The seed *)

Lemma trace_forall_bind {A B : Type} (P : event -> Prop) (m : M A) (f : A -> M B) :
  Forall P (trace m) ->
  (forall a, result m = Ok a -> Forall P (trace (f a))) ->
  Forall P (trace (bind m f)).
Proof.
  intros Hm Hf. rewrite trace_bind. apply Forall_app. split; [exact Hm |].
  destruct (result m) as [a | e]; [apply Hf; reflexivity | constructor].
Qed.

Lemma trace_forall_try {A : Type} (P : event -> Prop) (m : M A) (h : exn -> M A) :
  Forall P (trace m) -> (forall e, Forall P (trace (h e))) ->
  Forall P (trace (try_except m h)).
Proof.
  intros Hm Hh. rewrite trace_try. apply Forall_app. split; [exact Hm |].
  destruct (result m) as [a | e]; [constructor | apply Hh].
Qed.

Lemma seeded_hmm_fit (lib : Library) (self : ModelSelector) (n : Z)
    (x : matrix) (l : list nat) :
  Forall (seeded self) (trace (hmm_fit lib n (random_state self) x l)) /\
  forall m, result (hmm_fit lib n (random_state self) x l) = Ok m ->
            hmm_random_state m = random_state self.
Proof.
  unfold hmm_fit. destruct (fit_fails lib n (random_state self) x l);
    cbn [emit bind raise ret trace result fst snd app].
  - split; [repeat constructor | discriminate].
  - split; [repeat constructor |]. intros m H. injection H as <-. reflexivity.
Qed.

Lemma seeded_hmm_score (lib : Library) (self : ModelSelector)
    (m : GaussianHMM) (x : matrix) (l : list nat) :
  hmm_random_state m = random_state self ->
  Forall (seeded self) (trace (hmm_score lib m x l)).
Proof.
  intros Hm. unfold hmm_score. destruct (hmm_loglik lib m x l);
    repeat constructor; exact Hm.
Qed.

Lemma seeded_base_model (lib : Library) (self : ModelSelector) (n : Z) :
  Forall (seeded self) (trace (base_model lib self n)).
Proof. rewrite base_model_eq. repeat constructor. Qed.

Lemma seeded_other_calls (lib : Library) (self : ModelSelector) (n : Z)
    (ws : list string) :
  Forall (seeded self) (other_calls lib self (trained_model self n) ws).
Proof.
  induction ws as [| w ws IH]; cbn [other_calls]; [constructor |].
  destruct (String.eqb w (this_word self)); [exact IH |].
  destruct (dict_get (hwords self) w) as [xl |]; [| constructor].
  constructor; [reflexivity |].
  destruct (hmm_loglik lib (trained_model self n) (fst xl) (snd xl));
    [exact IH | constructor].
Qed.

Lemma seeded_cv_fold (lib : Library) (self : ModelSelector) (n : Z)
    (ss : list float) (fold : list nat * list nat) :
  Forall (seeded self) (trace (cv_fold lib self n ss fold)).
Proof.
  unfold cv_fold. destruct fold as [tr te].
  apply trace_forall_bind; [apply seeded_base_model | intros om Hom].
  rewrite base_model_eq in Hom. cbn [result snd] in Hom.
  apply trace_forall_bind; [destruct om; constructor | intros m Hm].
  assert (Hrs : hmm_random_state m = random_state self).
  { destruct om as [m' |]; [| discriminate].
    cbn [assert_isinstance ret result snd] in Hm. injection Hm as <-.
    destruct (fit_fails lib n _ _ _); [discriminate |].
    injection Hom as <-. reflexivity. }
  apply trace_forall_bind;
    [rewrite combine_sequences_trace; constructor | intros xl _].
  apply trace_forall_bind;
    [rewrite combine_sequences_trace; constructor | intros xl' _].
  unfold hmm_refit. rewrite Hrs.
  destruct (seeded_hmm_fit lib self (n_components m) (fst xl) (snd xl)) as [Ht Hr].
  apply trace_forall_bind; [exact Ht | intros m' Hm'].
  apply trace_forall_bind.
  - apply trace_forall_try; [| intros; constructor].
    apply trace_forall_bind; [| intros; constructor].
    apply seeded_hmm_score, Hr, Hm'.
  - intros [s |] _; constructor.
Qed.

Lemma seeded_cv_folds (lib : Library) (self : ModelSelector) (n : Z)
    (folds : list (list nat * list nat)) (ss : list float)
    (mv : option GaussianHMM) :
  Forall (seeded self) (trace (cv_folds lib self n folds ss mv)).
Proof.
  revert ss mv. induction folds as [| fold folds IH]; intros ss mv; cbn [cv_folds].
  - constructor.
  - apply trace_forall_bind; [apply seeded_cv_fold | intros sm _; apply IH].
Qed.

Lemma seeded_cv_state (lib : Library) (self : ModelSelector) (n : Z)
    (mv : option GaussianHMM) :
  Forall (seeded self) (trace (cv_state lib self n mv)).
Proof.
  unfold cv_state. apply trace_forall_bind.
  - unfold KFold_new. destruct (kfold_n_splits lib <=? 1)%nat; constructor.
  - intros k _. apply trace_forall_bind.
    + unfold KFold_split.
      destruct (length (sequences self) <? k)%nat; repeat constructor.
    + intros folds _. apply trace_forall_bind; [apply seeded_cv_folds | intros sm _].
      apply trace_forall_bind; [| intros; constructor].
      apply trace_forall_try; [| intros; constructor].
      unfold statistics_mean. destruct (fst sm); constructor.
Qed.

Lemma seeded_cv_loop (lib : Library) (self : ModelSelector) (ns : list Z)
    (bs : float) (bm mv : option GaussianHMM) :
  Forall (seeded self) (trace (cv_loop lib self ns bs bm mv)).
Proof.
  revert bs bm mv. induction ns as [| n ns IH]; intros bs bm mv; cbn [cv_loop].
  - constructor.
  - apply trace_forall_bind; [apply seeded_cv_state | intros sm _].
    destruct (fgt (fst sm) bs); [| apply IH].
    apply trace_forall_bind; [destruct (snd sm); constructor | intros; apply IH].
Qed.

(** X11: in each of the four strategies every training call that [select]
    makes uses the [random_state] of the selector, and every model it scores
    was trained with that seed: one seed serves all candidates and folds. *)
Theorem select_uses_one_seed (lib : Library) (k : strategy) (self : ModelSelector) :
  Forall (seeded self) (trace (select lib k self)).
Proof.
  destruct k; cbn [select].
  - apply seeded_base_model.
  - unfold SelectorBIC_select. rewrite bic_loop_trace.
    apply Forall_flat_map, Forall_forall. intros n _. unfold bic_calls.
    constructor; [reflexivity |].
    destruct (fit_fails lib n _ _ _); repeat constructor.
  - unfold SelectorDIC_select. rewrite dic_loop_trace.
    apply Forall_flat_map, Forall_forall. intros n _. unfold dic_calls.
    constructor; [reflexivity |].
    destruct (fit_fails lib n _ _ _); [constructor |].
    constructor; [reflexivity |].
    destruct (hmm_loglik lib (trained_model self n) (X self) (lengths self));
      [apply seeded_other_calls | constructor].
  - unfold SelectorCV_select.
    apply trace_forall_bind; [apply seeded_base_model | intros bm _].
    destruct (length (sequences self) <? Z.to_nat 3)%nat;
      [constructor | apply seeded_cv_loop].
Qed.

(** ** Construction *)

(** X12: the constructor succeeds exactly when the target word is a key of
    both dictionaries, and the selector it builds holds that word's entries:
    looking the word up in the stored dictionaries gives back the selector's
    own sequences, matrix and lengths. *)
Theorem init_selector_coherent
    (ws : dict (list sequence)) (hws : dict Xlengths) (word : string)
    (n_const min_n max_n seed : Z) (verb : bool) :
  ((exists self, ModelSelector_init ws hws word n_const min_n max_n seed verb = Ok self)
   <-> (dict_get ws word <> None /\ dict_get hws word <> None)) /\
  (forall self,
     ModelSelector_init ws hws word n_const min_n max_n seed verb = Ok self ->
     dict_get (words self) (this_word self) = Some (sequences self) /\
     dict_get (hwords self) (this_word self) = Some (X self, lengths self) /\
     words self = ws /\ hwords self = hws /\ this_word self = word /\
     n_constant self = n_const /\
     min_n_components self = min_n /\ max_n_components self = max_n /\
     random_state self = seed).
Proof.
  unfold ModelSelector_init.
  destruct (dict_get ws word) as [seqs |] eqn:Hw.
  - destruct (dict_get hws word) as [[x l] |] eqn:Hh.
    + split.
      * split; [intros _; split; discriminate | intros _; eexists; reflexivity].
      * intros self H. injection H as <-. cbn. rewrite Hw, Hh. repeat split.
    + split; [| discriminate].
      split; [intros [self H]; discriminate | intros [_ H]; contradiction H; reflexivity].
  - split; [| discriminate].
    split; [intros [self H]; discriminate | intros [H _]; contradiction H; reflexivity].
Qed.

(** ** The BIC penalty *)

(** X13: for one and the same log-likelihood, a larger state count never
    gets a smaller BIC score in binary64 arithmetic: rounding may make two
    scores equal but never reverses their order (state counts from 0 on,
    [ln N] finite and not negative). *)
Theorem bic_penalty_monotone (lib : Library) (self : ModelSelector)
    (c : float) (n1 n2 : Z) :
  valid_binary prec emax c = true ->
  is_finite (np_log lib (fst (shape (X self)))) = true ->
  fle (S754_zero false) (np_log lib (fst (shape (X self)))) = true ->
  0 <= n1 <= n2 ->
  flt (bic_formula lib self n2 c) (bic_formula lib self n1 c) = false.
Proof.
  intros Hc HL HL0 Hn. rewrite <- !bic_score_formula.
  apply bic_score_mono; try assumption.
  unfold shape. cbn [snd]. lia.
Qed.

(** ** What SelectorCV can return *)

Lemma cv_state_pass_model (lib : Library) (self : ModelSelector) (n : Z)
    (mv : option GaussianHMM) (s : float) (m : GaussianHMM) :
  result (cv_state lib self n mv) = Ok (s, Some m) ->
  exists tr te xl,
    In (tr, te) (kfold_folds (fold_sizes (kfold_n_splits lib)
                                         (length (sequences self)))
                             0 (length (sequences self))) /\
    result (combine_sequences tr (sequences self)) = Ok xl /\
    m = mkHMM n (random_state self) (fst xl) (snd xl).
Proof.
  unfold cv_state, KFold_new.
  destruct (kfold_n_splits lib <=? 1)%nat eqn:Hk; [discriminate |].
  apply Nat.leb_gt in Hk. rewrite !result_bind. cbn [ret result snd].
  rewrite !result_bind. unfold KFold_split.
  destruct (length (sequences self) <? kfold_n_splits lib)%nat; [discriminate |].
  cbn [emit bind raise ret result snd app].
  pose proof (kfold_folds_length
                (fold_sizes (kfold_n_splits lib) (length (sequences self)))
                0 (length (sequences self))) as Hlen.
  rewrite fold_sizes_length in Hlen.
  destruct (@exists_last _ (kfold_folds
                              (fold_sizes (kfold_n_splits lib)
                                          (length (sequences self)))
                              0 (length (sequences self))))
    as (folds & [tr te] & Hfolds).
  { intros Hnil. rewrite Hnil in Hlen. simpl in Hlen. lia. }
  rewrite Hfolds. clear Hlen. rewrite result_bind.
  destruct (result (cv_folds lib self n (folds ++ [(tr, te)]) [] mv))
    as [[ss r] |] eqn:Hf; [| discriminate].
  rewrite result_bind. cbn [fst snd].
  destruct (result (try_except (statistics_mean lib ss) _)); [| discriminate].
  cbn [ret result snd]. intros H. injection H as _ ->.
  destruct (cv_folds_last_model lib self n folds [] mv ss m tr te Hf)
    as (xl & Hxl & Hm).
  exists tr, te, xl. split; [| auto].
  apply in_or_app. right. left. reflexivity.
Qed.

(** X14: when every pass of the outer loop completes (at least 3
    sequences), a model returned by SelectorCV is either the initial one,
    trained with 3 states on the full data, or the model left by the pass of
    a state count [n] of the range whose score exceeds -inf; that model has
    [n] states and the selector's seed and was last fitted on the training
    sequences of one of the folds, combined. *)
Theorem cv_result_sound (lib : Library) (self : ModelSelector) (m : GaussianHMM) :
  (3 <= length (sequences self))%nat ->
  (forall n, in_range self n ->
     exists s m', result (cv_state lib self n None) = Ok (s, Some m')) ->
  result (SelectorCV_select lib self) = Ok (Some m) ->
  (m = trained_model self 3 /\
   fit_fails lib 3 (random_state self) (X self) (lengths self) = false) \/
  (exists n s,
     in_range self n /\
     result (cv_state lib self n None) = Ok (s, Some m) /\
     fgt s neg_inf = true /\
     n_components m = n /\ hmm_random_state m = random_state self /\
     exists tr te xl,
       In (tr, te) (kfold_folds (fold_sizes (kfold_n_splits lib)
                                            (length (sequences self)))
                                0 (length (sequences self))) /\
       result (combine_sequences tr (sequences self)) = Ok xl /\
       fit_X m = fst xl /\ fit_lengths m = snd xl).
Proof.
  intros Hlen Hall Hres. rewrite (cv_select_result lib self Hlen Hall) in Hres.
  injection Hres as Hres. rewrite pick_start in Hres.
  pose proof (pick_range_sound fgt (fun a b => fle b a)
                (fun a => flt_irrefl a)
                (fun a b c H1 H2 => flt_trans c b a H2 H1)
                (fun a b c H1 H2 => flt_fle_trans c b a H2 H1)
                (cv_candidate lib self) neg_inf
                (min_n_components self) (max_n_components self + 1)) as H.
  destruct (snd (pick fgt _ neg_inf None)) as [m' |].
  - injection Hres as ->. right.
    destruct H as (n & s & Hn & Hc & Hs). apply cv_candidate_some in Hc.
    destruct (cv_state_pass_model lib self n None s m Hc)
      as (tr & te & xl & Hin & Hxl & Hm).
    exists n, s. split; [unfold in_range; lia |].
    split; [exact Hc |]. split; [exact Hs |].
    subst m. cbn [n_components hmm_random_state fit_X fit_lengths].
    split; [reflexivity |]. split; [reflexivity |].
    exists tr, te, xl. auto.
  - left. destruct (fit_fails lib 3 _ _ _); [discriminate |].
    injection Hres as <-. auto.
Qed.

(** ** The further properties at concrete inputs *)

Lemma bic_result_sound_witness :
  (exists n s,
     in_range (corpus_selector five_sequences 2 4) n /\
     trained_model (corpus_selector five_sequences 2 4) 2
     = trained_model (corpus_selector five_sequences 2 4) n /\
     result (bic_try lib_ok (corpus_selector five_sequences 2 4) n)
     = Ok (s, trained_model (corpus_selector five_sequences 2 4) 2) /\
     flt s pos_inf = true) /\
  result (SelectorBIC_select lib_neg_inf (corpus_selector five_sequences 2 4))
  = Ok None.
Proof.
  split.
  - apply (proj1 (bic_result_sound lib_ok (corpus_selector five_sequences 2 4))).
    vm_compute. reflexivity.
  - apply (proj2 (bic_result_sound lib_neg_inf (corpus_selector five_sequences 2 4))).
    intros k s m Hk. revert s m. by_candidates Hk;
      intros s m Hr; vm_compute in Hr; injection Hr as <- _; reflexivity.
Defined.

Lemma dic_result_sound_witness :
  (exists n s,
     in_range (corpus_selector five_sequences 2 4) n /\
     trained_model (corpus_selector five_sequences 2 4) 2
     = trained_model (corpus_selector five_sequences 2 4) n /\
     result (dic_try lib_ok (corpus_selector five_sequences 2 4) n)
     = Ok (s, trained_model (corpus_selector five_sequences 2 4) 2) /\
     fgt s neg_inf = true) /\
  result (SelectorDIC_select lib_neg_inf (corpus_selector five_sequences 2 4))
  = Ok None.
Proof.
  split.
  - apply (proj1 (dic_result_sound lib_ok (corpus_selector five_sequences 2 4))).
    vm_compute. reflexivity.
  - apply (proj2 (dic_result_sound lib_neg_inf (corpus_selector five_sequences 2 4))).
    intros k s m Hk. revert s m. by_candidates Hk;
      intros s m Hr; vm_compute in Hr; injection Hr as <- _; reflexivity.
Defined.

Lemma degenerate_loglik_witness :
  result (SelectorBIC_select lib_nan2 (corpus_selector five_sequences 2 4))
  <> Ok (Some (trained_model (corpus_selector five_sequences 2 4) 2)) /\
  result (SelectorDIC_select lib_nan2 (corpus_selector five_sequences 2 4))
  <> Ok (Some (trained_model (corpus_selector five_sequences 2 4) 2)).
Proof.
  apply (degenerate_loglik_never_selected lib_nan2
           (corpus_selector five_sequences 2 4) 2 nan).
  - reflexivity.
  - left. reflexivity.
Defined.

Lemma empty_range_witness :
  SelectorBIC_select lib_ok (corpus_selector five_sequences 5 4) = ([], Ok None) /\
  SelectorDIC_select lib_ok (corpus_selector five_sequences 5 4) = ([], Ok None) /\
  SelectorCV_select lib_ok (corpus_selector five_sequences 5 4) =
  ([EvFit 3 14 (concat five_sequences) [1; 1; 1; 1; 1]%nat],
   Ok (Some (trained_model (corpus_selector five_sequences 5 4) 3))).
Proof.
  destruct (empty_range_results lib_ok (corpus_selector five_sequences 5 4))
    as (H1 & H2 & H3).
  - simpl. lia.
  - split; [exact H1 |]. split; [exact H2 |]. apply H3. simpl. lia.
Defined.

Lemma dic_missing_hwords_witness :
  result (SelectorDIC_select lib_ok missing_hwords_selector) = Ok None.
Proof.
  apply (dic_missing_hwords_none lib_ok missing_hwords_selector "Y"%string).
  - left. reflexivity.
  - reflexivity.
Defined.

Lemma cv_keeps_initial_model_witness :
  result (SelectorCV_select lib_neg_inf (corpus_selector five_sequences 5 6))
  = Ok (Some (trained_model (corpus_selector five_sequences 5 6) 3)).
Proof.
  apply (cv_keeps_initial_model lib_neg_inf (corpus_selector five_sequences 5 6)).
  - simpl. lia.
  - intros k Hk. by_candidates Hk; eexists; eexists; vm_compute; reflexivity.
  - intros k s m Hk. revert s m. by_candidates Hk;
      intros s m Hr; vm_compute in Hr; injection Hr as <- _; reflexivity.
Defined.

Lemma cv_unscorable_pass_witness :
  pos_inf = pos_inf /\ forall best, is_finite best = true -> fgt pos_inf best = true.
Proof.
  apply (cv_unscorable_pass_is_pos_inf lib_noscore3
           (corpus_selector five_sequences 2 3) 3 None pos_inf
           (Some (mkHMM 3 14 (concat four_sequences) [1; 1; 1; 1]%nat))).
  - intros hm x l Hn. cbn. rewrite Hn. reflexivity.
  - vm_compute. reflexivity.
Defined.

Lemma cv_first_exception_witness :
  result (SelectorCV_select lib_fail4 (corpus_selector five_sequences 3 5))
  = Raise AssertionError.
Proof.
  destruct (cv_first_exception_escapes lib_fail4
              (corpus_selector five_sequences 3 5) 4) as [_ H].
  - simpl. lia.
  - unfold in_range. simpl. lia.
  - intros k Hk. simpl in Hk. assert (k = 3) as -> by lia.
    eexists; eexists; vm_compute; reflexivity.
  - apply H; [simpl; lia | reflexivity].
Defined.

Lemma init_selector_coherent_witness :
  (exists self,
     ModelSelector_init (corpus_words five_sequences) (corpus_hwords five_sequences)
                        "X" 3 2 10 14 false = Ok self) /\
  dict_get (hwords (corpus_selector five_sequences 2 10)) "X"
  = Some (X (corpus_selector five_sequences 2 10),
          lengths (corpus_selector five_sequences 2 10)).
Proof.
  destruct (init_selector_coherent (corpus_words five_sequences)
              (corpus_hwords five_sequences) "X" 3 2 10 14 false) as [Hiff Hco].
  split.
  - apply Hiff. split; discriminate.
  - destruct (Hco (corpus_selector five_sequences 2 10) eq_refl) as (_ & H & _).
    exact H.
Defined.

Lemma bic_penalty_monotone_witness :
  flt (bic_formula lib_ok (corpus_selector five_sequences 2 4) 3 (feat (-10)))
      (bic_formula lib_ok (corpus_selector five_sequences 2 4) 2 (feat (-10)))
  = false.
Proof.
  apply bic_penalty_monotone.
  - vm_compute. reflexivity.
  - vm_compute. reflexivity.
  - vm_compute. reflexivity.
  - lia.
Defined.

Lemma cv_result_sound_witness :
  (mkHMM 2 14 (concat four_sequences) [1; 1; 1; 1]%nat
   = trained_model (corpus_selector five_sequences 2 3) 3 /\
   fit_fails lib_ok 3 14 (concat five_sequences) [1; 1; 1; 1; 1]%nat = false) \/
  (exists n s,
     in_range (corpus_selector five_sequences 2 3) n /\
     result (cv_state lib_ok (corpus_selector five_sequences 2 3) n None)
     = Ok (s, Some (mkHMM 2 14 (concat four_sequences) [1; 1; 1; 1]%nat)) /\
     fgt s neg_inf = true /\
     n_components (mkHMM 2 14 (concat four_sequences) [1; 1; 1; 1]%nat) = n /\
     hmm_random_state (mkHMM 2 14 (concat four_sequences) [1; 1; 1; 1]%nat) = 14 /\
     exists tr te xl,
       In (tr, te) (kfold_folds (fold_sizes 5 5) 0 5) /\
       result (combine_sequences tr five_sequences) = Ok xl /\
       concat four_sequences = fst xl /\ [1; 1; 1; 1]%nat = snd xl).
Proof.
  apply (cv_result_sound lib_ok (corpus_selector five_sequences 2 3)).
  - simpl. lia.
  - intros k Hk. by_candidates Hk; eexists; eexists; vm_compute; reflexivity.
  - vm_compute. reflexivity.
Defined.
